(** * riemannian-nlp: the experiment launcher and the build script

    A shallow embedding of [riemann/embed_experiment.py] and
    [riemann/setup.py].  Calls into external libraries (torch, geoopt,
    sacred, multiprocessing, setuptools) are recorded as events of a trace;
    an environment decides which of them raise and what the data-bearing
    ones return. *)

From Stdlib Require Import ZArith List String Ascii DecimalString Lia Bool.
Import ListNotations.
Open Scope string_scope.
Open Scope Z_scope.

(** ** Python values shared by both files *)
Module Py.

(** A numeric hyperparameter.  A Python float is identified with its [repr]
    (which round-trips), since only its printed form is ever inspected. *)
Inductive pynum : Type :=
| PyInt (z : Z)
| PyFloat (repr : string).

(** [str(z)] for an int. *)
Definition str_int (z : Z) : string := NilZero.string_of_int (Z.to_int z).

(** [str(x)], which is also what an f-string field [{x}] renders. *)
Definition str (x : pynum) : string :=
  match x with
  | PyInt z => str_int z
  | PyFloat r => r
  end.

(** The result of running a piece of Python: a value or a raised exception. *)
Inductive outcome (E A : Type) : Type :=
| Ret (a : A)
| Raise (e : E).
Arguments Ret {E A} a.
Arguments Raise {E A} e.

(** [sep.join(parts)] *)
Definition str_join (sep : string) (parts : list string) : string :=
  String.concat sep parts.

(** [s[n:]] *)
Fixpoint drop (n : nat) (s : string) : string :=
  match n, s with
  | O, _ => s
  | S n', String _ r => drop n' r
  | S _, EmptyString => EmptyString
  end.

(** [s.zfill(width)] on a string of digits. *)
Definition zfill (width : nat) (s : string) : string :=
  let fix zeros (k : nat) : string :=
    match k with O => EmptyString | S k' => String "0" (zeros k') end in
  zeros (width - String.length s)%nat ++ s.

(** [s.split(' ')[0]]: everything before the first space. *)
Fixpoint first_field (s : string) : string :=
  match s with
  | EmptyString => EmptyString
  | String c r => if Ascii.eqb c " " then EmptyString else String c (first_field r)
  end.

(** [t in s] for strings. *)
Definition contains (s t : string) : Prop :=
  exists a b, s = a ++ t ++ b.

(** [s.endswith(t)] *)
Definition ends_with (s t : string) : Prop :=
  exists a, s = a ++ t.

End Py.

Import Py.

(** ** [datetime] and [strftime] *)
Module Datetime.

Record datetime : Type := {
  year : Z;
  month : Z;
  day : Z;
  hour : Z;
  minute : Z;
  second : Z
}.

(** One conversion of a format string.  Fields are zero-padded decimals;
    an unknown conversion is kept as written. *)
Definition directive (t : datetime) (d : ascii) : string :=
  if Ascii.eqb d "m" then zfill 2 (str_int (month t))
  else if Ascii.eqb d "d" then zfill 2 (str_int (day t))
  else if Ascii.eqb d "Y" then zfill 4 (str_int (year t))
  else if Ascii.eqb d "H" then zfill 2 (str_int (hour t))
  else if Ascii.eqb d "M" then zfill 2 (str_int (minute t))
  else if Ascii.eqb d "S" then zfill 2 (str_int (second t))
  else if Ascii.eqb d "%" then "%"
  else String "%" (String d EmptyString).

(** [t.strftime(fmt)] *)
Fixpoint strftime (t : datetime) (fmt : string) : string :=
  match fmt with
  | EmptyString => EmptyString
  | String c rest =>
      if Ascii.eqb c "%" then
        match rest with
        | EmptyString => "%"
        | String d rest' => directive t d ++ strftime t rest'
        end
      else String c (strftime t rest)
  end.

End Datetime.

Import Datetime.

(** ** [setup.py] *)
Module Setup.

(** [b.lower()] on one byte: only ASCII upper-case letters change. *)
Definition lower_byte (c : ascii) : ascii :=
  let n := nat_of_ascii c in
  if ((65 <=? n) && (n <=? 90))%nat then ascii_of_nat (n + 32) else c.

(** [out.lower()] *)
Fixpoint lower (s : string) : string :=
  match s with
  | EmptyString => EmptyString
  | String c r => String (lower_byte c) (lower r)
  end.

Definition hex_digit (n : nat) : ascii :=
  if (n <? 10)%nat then ascii_of_nat (48 + n) else ascii_of_nat (87 + n).

Fixpoint has_byte (q : ascii) (s : string) : bool :=
  match s with
  | EmptyString => false
  | String c r => Ascii.eqb c q || has_byte q r
  end.

(** The body of [repr(b)] for a bytes object, with [quote] as delimiter. *)
Fixpoint repr_body (quote : ascii) (s : string) : string :=
  match s with
  | EmptyString => EmptyString
  | String c r =>
      let n := nat_of_ascii c in
      let rest := repr_body quote r in
      if Ascii.eqb c quote || Ascii.eqb c "\" then String "\" (String c rest)
      else if (n =? 9)%nat then String "\" (String "t" rest)
      else if (n =? 10)%nat then String "\" (String "n" rest)
      else if (n =? 13)%nat then String "\" (String "r" rest)
      else if ((n <? 32) || (127 <=? n))%nat then
        String "\" (String "x"
          (String (hex_digit (n / 16)) (String (hex_digit (n mod 16)) rest)))
      else String c rest
  end.

(** [str(b)] for a bytes object [b], which is its [repr]: [b'...'], or
    [b"..."] when the bytes hold a single quote and no double quote. *)
Definition str_bytes (b : string) : string :=
  let dquote : ascii := ascii_of_nat 34 in
  let quote : ascii :=
    if has_byte "'" b && negb (has_byte dquote b) then dquote else "'"%char in
  String "b" (String quote (repr_body quote b ++ String quote EmptyString)).

Fixpoint skip_spaces (s : string) : string :=
  match s with
  | String c r => if Ascii.eqb c " " then skip_spaces r else s
  | EmptyString => s
  end.

(** [re.match('apple *llvm', s)]: the pattern matched at the start of [s]. *)
Definition match_apple_llvm (s : string) : bool :=
  prefix "apple" s && prefix "llvm" (skip_spaces (drop 5 s)).

(** [re.search('apple *llvm', s)] as a truth value. *)
Fixpoint search_apple_llvm (s : string) : bool :=
  match_apple_llvm s ||
  match s with
  | EmptyString => false
  | String _ r => search_apple_llvm r
  end.

(** [setuptools.Extension] *)
Record Extension : Type := {
  ext_name : string;
  sources : list string;
  include_dirs : list string;
  extra_compile_args : list string;
  language : string
}.

(** The keyword arguments of the call to [setup]. *)
Record setup_call : Type := {
  name : string;
  version : string;
  packages : list string;
  package_dir : list (string * string);
  url : string;
  license : string;
  author : string;
  author_email : string;
  description : string;
  ext_modules : list Extension;
  setup_include_dirs : string;
  install_requires : list string
}.

(** What the script reads from its surroundings. *)
Record build_env : Type := {
  (** [sysconfig.get_config_vars().get('CC')], when set *)
  config_CC : option string;
  (** [check_output(argv)]: the bytes written, or [None] when it raises *)
  check_output : list string -> option string;
  (** [numpy.get_include()] *)
  numpy_get_include : string;
  (** [Cython.Build.cythonize] *)
  cythonize : list Extension -> list Extension
}.

Inductive exn : Type :=
| CalledProcessError (argv : list string).

(** [extra_compile_args] once lines 10-15 have run, given the compiler's
    version banner. *)
Definition compile_args (out : string) : list string :=
  let extra_compile_args := ["-std=c++11"] in
  if search_apple_llvm (str_bytes (lower out))
  then extra_compile_args ++ ["-stdlib=libc++"]
  else extra_compile_args.

(** The list [extensions] of lines 17-23. *)
Definition extensions (env : build_env) (out : string) : list Extension :=
  [ {| ext_name := "data.graph_dataset";
       sources := ["data/graph_dataset.pyx"];
       include_dirs := [numpy_get_include env; "."];
       extra_compile_args := compile_args out;
       language := "c++" |} ].

(** The whole script: the call it makes to [setup], or the exception that
    stops it. *)
Definition script (env : build_env) : outcome exn setup_call :=
  let CC :=
    first_field (match config_CC env with Some cc => cc | None => "gcc" end) in
  match check_output env [CC; "--version"] with
  | None => Raise (CalledProcessError [CC; "--version"])
  | Some out =>
      let ext_modules := cythonize env (extensions env out) in
      let install_requires := ["Cython"; "torch"; "geoopt"; "numpy"] in
      Ret {| name := "riemanniannlp";
             version := "0.1";
             packages := ["riemann"];
             package_dir := [("riemann", ".")];
             url := EmptyString;
             license := EmptyString;
             author := "justin";
             author_email := "jdieter@stanford.edu";
             description := EmptyString;
             ext_modules := ext_modules;
             setup_include_dirs := numpy_get_include env;
             install_requires := install_requires |}
  end.

End Setup.

(** ** [embed_experiment.py] *)
Module Embed.

(** *** The experiment object and its configuration *)

Inductive observer : Type :=
| FileStorageObserver (basedir : string).

Record Experiment : Type := {
  path : string;
  ingredients : list string;
  observers : list observer;
  logger : option string
}.

(** [Experiment(name, ingredients=...)]: no observer, no logger yet. *)
Definition Experiment_new (name : string) (ingredients : list string) : Experiment :=
  {| path := name; ingredients := ingredients; observers := []; logger := None |}.

(** [e.observers.append(o)] *)
Definition observers_append (e : Experiment) (o : observer) : Experiment :=
  {| path := path e; ingredients := ingredients e;
     observers := observers e ++ [o]; logger := logger e |}.

(** [e.logger = l] *)
Definition set_logger (e : Experiment) (l : string) : Experiment :=
  {| path := path e; ingredients := ingredients e;
     observers := observers e; logger := Some l |}.

(** The module-level object [ex] once lines 27-47 have run. *)
Definition ex : Experiment :=
  let ex := Experiment_new "Embed"
              ["eval_ingredient"; "data_ingredient"; "save_ingredient";
               "initialization_ingredient"] in
  let ex := observers_append ex (FileStorageObserver "experiments") in
  set_logger ex "Embeddings".

(** The entries [config] assigns before [now]; a run may preset any of
    them from the command line. *)
Record hyperparameters : Type := {
  n_epochs : Z;
  dimension : Z;
  manifold_name : string;
  eval_every : Z;
  gpu : Z;
  train_threads : Z;
  submanifold_names : list string;
  double_precision : bool;
  submanifold_shapes : list (list Z);
  learning_rate : pynum;
  sparse : bool;
  burnin_num : Z;
  burnin_lr_mult : pynum;
  burnin_neg_multiplier : pynum
}.

(** The literal values of lines 51-64. *)
Definition defaults : hyperparameters :=
  {| n_epochs := 200;
     dimension := 50;
     manifold_name := "Product";
     eval_every := 20;
     gpu := -1;
     train_threads := 5;
     submanifold_names := ["PoincareBall"; "PoincareBall"; "Euclidean"];
     double_precision := true;
     submanifold_shapes := [[15]; [15]; [20]];
     learning_rate := PyInt 1;
     sparse := true;
     burnin_num := 10;
     burnin_lr_mult := PyFloat "0.01";
     burnin_neg_multiplier := PyFloat "0.1" |}.

Record configuration : Type := {
  hyper :> hyperparameters;
  now : datetime;
  tensorboard_dir : string
}.

(** [config], lines 65-69, on the hyperparameters [h] of the run with
    [datetime.now()] returning [clock]. *)
Definition config (h : hyperparameters) (clock : datetime) : configuration :=
  let now := clock in
  let tensorboard_dir :=
    "runs/" ++ manifold_name h ++ "-" ++ str_int (dimension h)
            ++ "D-LR" ++ str (learning_rate h) in
  let tensorboard_dir :=
    if (manifold_name h =? "Product")%string
    then tensorboard_dir ++ "-Subs[" ++ str_join "," (submanifold_names h) ++ "]"
    else tensorboard_dir in
  let tensorboard_dir := tensorboard_dir ++ strftime now "-%m:%d:%Y-%H:%M:%S" in
  {| hyper := h; now := now; tensorboard_dir := tensorboard_dir |}.

(** *** Manifolds *)

(** The geoopt manifolds the script builds.  A component of a product is
    whatever [get_embed_manifold] returned for its name, [None] included. *)
#[warnings="-register-all"]
Inductive manifold : Type :=
| Euclidean
| PoincareBall
| Sphere
| Product (submanifolds : list (option manifold)) (shapes : list (list Z)).

(** [np.array(shapes)] keeps the nested list's entries. *)
Definition np_array (shapes : list (list Z)) : list (list Z) := shapes.

Inductive recursion_exn : Type :=
| RecursionError.

(** A list comprehension [[f(x) for x in xs]]: left to right, stopping at
    the first call that raises. *)
Fixpoint comprehension {E A B : Type} (f : A -> outcome E B) (xs : list A)
  : outcome E (list B) :=
  match xs with
  | [] => Ret []
  | x :: xs' =>
      match f x with
      | Raise e => Raise e
      | Ret y =>
          match comprehension f xs' with
          | Raise e => Raise e
          | Ret ys => Ret (y :: ys)
          end
      end
  end.

(** [get_embed_manifold], lines 71-83.  The function is captured by the
    experiment: a parameter the caller does not pass takes its value from
    the configuration.  [arg] is the [manifold_name] the caller passes, if
    any; neither call site passes [submanifold_names] or
    [submanifold_shapes].  [depth] is the number of frames the interpreter
    still allows. *)
Fixpoint get_embed_manifold (depth : nat) (cfg : configuration)
    (arg : option string) : outcome recursion_exn (option manifold) :=
  match depth with
  | O => Raise RecursionError
  | S depth' =>
      let manifold_name :=
        match arg with Some n => n | None => manifold_name cfg end in
      if (manifold_name =? "Euclidean")%string then Ret (Some Euclidean)
      else if (manifold_name =? "PoincareBall")%string then Ret (Some PoincareBall)
      else if (manifold_name =? "Sphere")%string then Ret (Some Sphere)
      else if (manifold_name =? "Product")%string then
        match comprehension
                (fun name => get_embed_manifold depth' cfg (Some name))
                (submanifold_names cfg) with
        | Raise e => Raise e
        | Ret submanifolds =>
            Ret (Some (Product submanifolds (np_array (submanifold_shapes cfg))))
        end
      else Ret None
  end.

(** *** The objects [embed] handles *)

(** A loaded graph dataset: its node names and negative-sampling ratio. *)
Record dataset : Type := {
  objects : list string;
  neg_multiplier : pynum
}.

(** [data.neg_multiplier = v] *)
Definition set_neg_multiplier (data : dataset) (v : pynum) : dataset :=
  {| objects := objects data; neg_multiplier := v |}.

(** The dict [get_adjacency_dict] derives from a dataset. *)
Inductive adjacency : Type :=
| adjacency_of (data : dataset).

(** An [mp.Queue], with the [maxsize] it was created with when one was
    passed. *)
Record Queue : Type := {
  maxsize : option Z
}.

(** A [ManifoldEmbedding], by the arguments of its constructor.  Its
    methods [share_memory], [to], [double] and [float] return the object
    they are called on. *)
Record ManifoldEmbedding : Type := {
  embedding_manifold : option manifold;
  num_embeddings : Z;
  embedding_dim : Z;
  embedding_sparse : bool
}.

Record RiemannianSGD : Type := {
  params : ManifoldEmbedding;
  lr : pynum;
  optimizer_manifold : option manifold
}.

(** The dict [shared_params], lines 119-124. *)
Record shared_params : Type := {
  sp_manifold : option manifold;
  sp_dimension : Z;
  sp_objects : list string;
  sp_double_precision : bool
}.

Inductive run_logger : Type :=
| RunLogger (name : string).

(** The fourteen positional arguments of [train], lines 132 and 147. *)
Record train_args : Type := {
  arg_device : string;
  arg_model : ManifoldEmbedding;
  arg_data : dataset;
  arg_optimizer : RiemannianSGD;
  arg_n_epochs : Z;
  arg_eval_every : Z;
  arg_learning_rate : pynum;
  arg_burnin_num : Z;
  arg_burnin_lr_mult : pynum;
  arg_shared_params : shared_params;
  arg_thread_number : Z;
  arg_tensorboard_dir : string;
  arg_log_queue : Queue;
  arg_log : run_logger
}.

(** An [mp.Process] object. *)
Record Process : Type := {
  target : string;
  args : train_args
}.

(** *** External calls *)

(** Every call [embed] makes into another module, with its arguments. *)
Inductive call : Type :=
| load_dataset (burnin : bool)
| torch_device (name : string)
| torch_set_num_threads (n : Z)
| mp_Queue (maxsize : option Z)
| get_adjacency_dict (data : dataset)
| initialize_eval (adjacent_list : adjacency) (log_queue_ : Queue) (tboard_dir : string)
| ManifoldEmbedding_new (m : option manifold) (size dim : Z) (sparse : bool)
| mp_set_sharing_strategy (strategy : string)
| share_memory (model : ManifoldEmbedding)
| to (model : ManifoldEmbedding) (device : string)
| double (model : ManifoldEmbedding)
| float (model : ManifoldEmbedding)
| apply_initialization (model : ManifoldEmbedding) (m : option manifold)
| no_grad_enter
| no_grad_exit
| projx (m : manifold) (model : ManifoldEmbedding)
| parameters (model : ManifoldEmbedding)
| RiemannianSGD_new (model : ManifoldEmbedding) (lr : pynum) (m : option manifold)
| mp_Process (target : string) (args : train_args)
| start (p : Process)
| join (p : Process)
| close (p : Process)
| terminate (p : Process)
| train (args : train_args)
| close_thread (wait_to_finish : bool)
| queue_empty (q : Queue)
| queue_get (q : Queue)
| log_info (log : run_logger) (msg : string).

Inductive exn : Type :=
| Raised (c : call)
| AttributeError
| IndexError
| Recursion.

(** What a run of [embed] depends on outside the script. *)
Record environment : Type := {
  (** the external calls that raise instead of returning *)
  raises : call -> bool;
  (** what [load_dataset(burnin=b)] returns *)
  loaded : bool -> dataset;
  (** the messages waiting on the log queue once training is over *)
  queued : list string;
  (** what [log_queue.empty()] answers while messages are waiting, by the
      number of messages read so far: [empty()] looks at the parent's end
      of the pipe, and answers [True] for a queue whose next message has
      not arrived there yet *)
  says_empty : nat -> bool;
  (** the interpreter's limit on nested calls *)
  recursion_limit : nat
}.

(** The one local of [embed] that is mutated inside a [try] and read in its
    [finally]: the list [threads]. *)
Record store : Type := {
  threads : list Process
}.

(** A computation: the calls it made, the store it left, and how it ended. *)
Definition M (A : Type) : Type := store -> list call * store * outcome exn A.

Definition ret {A : Type} (a : A) : M A :=
  fun s => ([], s, Ret a).

Definition raise {A : Type} (e : exn) : M A :=
  fun s => ([], s, Raise e).

Definition bind {A B : Type} (m : M A) (f : A -> M B) : M B :=
  fun s =>
    match m s with
    | (t1, s1, Ret a) =>
        match f a s1 with
        | (t2, s2, r) => ((t1 ++ t2)%list, s2, r)
        end
    | (t1, s1, Raise e) => (t1, s1, Raise e)
    end.

Declare Scope py_scope.
Delimit Scope py_scope with py.
Notation "x <- m ;; k" := (bind m (fun x => k))
  (at level 100, m at next level, right associativity) : py_scope.
Notation "m ;; k" := (bind m (fun _ => k))
  (at level 100, right associativity) : py_scope.
Open Scope py_scope.

(** [try: body finally: cleanup].  The cleanup runs however the body
    ended; an exception it raises replaces the body's. *)
Definition try_finally {A : Type} (body : M A) (cleanup : M unit) : M A :=
  fun s =>
    match body s with
    | (t1, s1, r1) =>
        match cleanup s1 with
        | (t2, s2, Ret _) => ((t1 ++ t2)%list, s2, r1)
        | (t2, s2, Raise e) => ((t1 ++ t2)%list, s2, Raise e)
        end
    end.

(** [try: body except: handler], with a bare [except]. *)
Definition try_except {A : Type} (body : M A) (handler : M A) : M A :=
  fun s =>
    match body s with
    | (t1, s1, Ret a) => (t1, s1, Ret a)
    | (t1, s1, Raise _) =>
        match handler s1 with
        | (t2, s2, r) => ((t1 ++ t2)%list, s2, r)
        end
    end.

(** [for x in xs: body(x)] *)
Fixpoint for_each {A : Type} (xs : list A) (body : A -> M unit) : M unit :=
  match xs with
  | [] => ret tt
  | x :: xs' => body x ;; for_each xs' body
  end.

(** [range(n)] *)
Definition range (n : Z) : list Z :=
  map Z.of_nat (seq 0 (Z.to_nat n)).

Definition get_threads : M (list Process) :=
  fun s => ([], s, Ret (threads s)).

(** [threads.append(p)] *)
Definition threads_append (p : Process) : M unit :=
  fun s => ([], {| threads := (threads s ++ [p])%list |}, Ret tt).

(** [threads = []] *)
Definition threads_reset : M unit :=
  fun _ => ([], {| threads := [] |}, Ret tt).

(** [threads[-1]] *)
Definition threads_last : M Process :=
  fun s =>
    match rev (threads s) with
    | p :: _ => ([], s, Ret p)
    | [] => ([], s, Raise IndexError)
    end.

Section Run.

Variable env : environment.

(** An external call returning [a], unless the environment makes it raise. *)
Definition invoke {A : Type} (c : call) (a : A) : M A :=
  fun s => ([c], s, if raises env c then Raise (Raised c) else Ret a).

(** An external call made for its effect. *)
Definition perform (c : call) : M unit := invoke c tt.

(** [with torch.no_grad(): body] *)
Definition with_no_grad {A : Type} (body : M A) : M A :=
  perform no_grad_enter ;;
  try_finally body (perform no_grad_exit).

(** The call [get_embed_manifold()] of line 97: every parameter comes from
    the configuration. *)
Definition captured_get_embed_manifold (cfg : configuration)
  : M (option manifold) :=
  fun s =>
    match get_embed_manifold (recursion_limit env) cfg None with
    | Ret m => ([], s, Ret m)
    | Raise RecursionError => ([], s, Raise Recursion)
    end.

(** The locals of [embed] that outlive its first part. *)
Record locals : Type := {
  data : dataset;
  device : string;
  log_queue : Queue;
  the_manifold : option manifold;
  model : ManifoldEmbedding;
  shared : shared_params;
  optimizer : RiemannianSGD
}.

(** Lines 87-126 of [embed]: load the data, build and initialise the
    model, build the optimizer. *)
Definition prepare (cfg : configuration) : M locals :=
  data <- invoke (load_dataset (burnin_num cfg >? 0))
                 (loaded env (burnin_num cfg >? 0)) ;;
  let data :=
    if burnin_num cfg >? 0
    then set_neg_multiplier data (burnin_neg_multiplier cfg)
    else data in
  let device_name :=
    if gpu cfg >=? 0 then "cuda:" ++ str_int (gpu cfg) else "cpu" in
  device <- invoke (torch_device device_name) device_name ;;
  perform (torch_set_num_threads 1) ;;
  log_queue <- invoke (mp_Queue None) {| maxsize := None |} ;;
  adjacent_list <- invoke (get_adjacency_dict data) (adjacency_of data) ;;
  perform (initialize_eval adjacent_list log_queue (tensorboard_dir cfg)) ;;
  manifold <- captured_get_embed_manifold cfg ;;
  let size := Z.of_nat (List.length (objects data)) in
  model <- invoke (ManifoldEmbedding_new manifold size (dimension cfg) (sparse cfg))
                  {| embedding_manifold := manifold;
                     num_embeddings := size;
                     embedding_dim := dimension cfg;
                     embedding_sparse := sparse cfg |} ;;
  model <- (if train_threads cfg >? 1
            then perform (mp_set_sharing_strategy "file_system") ;;
                 invoke (share_memory model) model
            else ret model) ;;
  model <- invoke (to model device) model ;;
  model <- (if double_precision cfg
            then invoke (double model) model
            else invoke (float model) model) ;;
  perform (apply_initialization model manifold) ;;
  with_no_grad
    (match manifold with
     | Some m => perform (projx m model)
     | None => raise AttributeError
     end) ;;
  let shared_params :=
    {| sp_manifold := manifold;
       sp_dimension := dimension cfg;
       sp_objects := objects data;
       sp_double_precision := double_precision cfg |} in
  perform (parameters model) ;;
  optimizer <- invoke (RiemannianSGD_new model (learning_rate cfg) manifold)
                      {| params := model;
                         lr := learning_rate cfg;
                         optimizer_manifold := manifold |} ;;
  ret {| data := data; device := device; log_queue := log_queue;
         the_manifold := manifold; model := model;
         shared := shared_params; optimizer := optimizer |}.

(** The list [args] of lines 132 and 147 for worker number [i]. *)
Definition worker_args (cfg : configuration) (l : locals) (_log : run_logger)
    (i : Z) : train_args :=
  {| arg_device := device l;
     arg_model := model l;
     arg_data := data l;
     arg_optimizer := optimizer l;
     arg_n_epochs := n_epochs cfg;
     arg_eval_every := eval_every cfg;
     arg_learning_rate := learning_rate cfg;
     arg_burnin_num := burnin_num cfg;
     arg_burnin_lr_mult := burnin_lr_mult cfg;
     arg_shared_params := shared l;
     arg_thread_number := i;
     arg_tensorboard_dir := tensorboard_dir cfg;
     arg_log_queue := log_queue l;
     arg_log := _log |}.

(** Lines 128-151 of [embed]: run [train], in worker processes or in the
    parent. *)
Definition training (cfg : configuration) (l : locals) (_log : run_logger)
  : M unit :=
  threads_reset ;;
  if train_threads cfg >? 1 then
    try_finally
      (for_each (range (train_threads cfg)) (fun i =>
         let args := worker_args cfg l _log i in
         p <- invoke (mp_Process "train" args)
                     {| target := "train"; args := args |} ;;
         threads_append p ;;
         last <- threads_last ;;
         perform (start last)) ;;
       ths <- get_threads ;;
       for_each ths (fun thread => perform (join thread)))
      (ths <- get_threads ;;
       for_each ths (fun thread =>
         try_except (perform (close thread)) (perform (terminate thread))) ;;
       perform (close_thread true))
  else
    let args := worker_args cfg l _log 0 in
    try_finally (perform (train args)) (perform (close_thread true)).

(** What [log_queue.empty()] answers when [pending] is what the queue holds
    and [read] messages were read so far: [True] on a queue that holds
    nothing, and what the environment says while messages are waiting. *)
Definition empty_answer (read : nat) (pending : list string) : bool :=
  match pending with
  | [] => true
  | _ :: _ => says_empty env read
  end.

(** Lines 154-156 of [embed]: the loop
    [while not log_queue.empty(): msg = log_queue.get(); _log.info(msg)]
    when [pending] is what the queue holds and [read] messages were read
    so far.  [get()] is only called after [empty()] answered [False], so
    with a message waiting. *)
Fixpoint drain (log_queue : Queue) (_log : run_logger) (read : nat)
    (pending : list string) : M unit :=
  empty <- invoke (queue_empty log_queue) (empty_answer read pending) ;;
  if empty then ret tt
  else
    match pending with
    | [] => ret tt
    | msg :: rest =>
        msg <- invoke (queue_get log_queue) msg ;;
        perform (log_info _log msg) ;;
        drain log_queue _log (S read) rest
    end.

(** The command [embed], lines 85-156. *)
Definition embed (cfg : configuration) (_log : run_logger) : M unit :=
  l <- prepare cfg ;;
  training cfg l _log ;;
  drain (log_queue l) _log 0 (queued env).

End Run.

(** A run of [embed] from the start. *)
Definition run (env : environment) (cfg : configuration) (_log : run_logger)
  : list call * store * outcome exn unit :=
  embed env cfg _log {| threads := [] |}.

(** The calls a run makes, in order. *)
Definition trace (env : environment) (cfg : configuration) (_log : run_logger)
  : list call :=
  fst (fst (run env cfg _log)).

(** How a run ends. *)
Definition result (env : environment) (cfg : configuration) (_log : run_logger)
  : outcome exn unit :=
  snd (run env cfg _log).

End Embed.

Import Embed.

(** * Vocabulary of the properties *)

(** ** What the first part of [embed] leaves behind *)

(** The dataset once lines 87-89 have run. *)
Definition data_after_load (env : environment) (cfg : configuration) : dataset :=
  let data := loaded env (burnin_num cfg >? 0) in
  if burnin_num cfg >? 0
  then set_neg_multiplier data (burnin_neg_multiplier cfg)
  else data.

(** The argument of [torch.device], line 91. *)
Definition device_name (cfg : configuration) : string :=
  if gpu cfg >=? 0 then "cuda:" ++ str_int (gpu cfg) else "cpu".

(** The model built at lines 99-104 when the manifold is [m]. *)
Definition model_on (env : environment) (cfg : configuration) (m : manifold)
  : ManifoldEmbedding :=
  {| embedding_manifold := Some m;
     num_embeddings := Z.of_nat (List.length (objects (data_after_load env cfg)));
     embedding_dim := dimension cfg;
     embedding_sparse := sparse cfg |}.

(** The locals of [embed] at line 127 when the manifold is [m]. *)
Definition locals_on (env : environment) (cfg : configuration) (m : manifold)
  : locals :=
  {| data := data_after_load env cfg;
     device := device_name cfg;
     log_queue := {| maxsize := None |};
     the_manifold := Some m;
     model := model_on env cfg m;
     shared := {| sp_manifold := Some m;
                  sp_dimension := dimension cfg;
                  sp_objects := objects (data_after_load env cfg);
                  sp_double_precision := double_precision cfg |};
     optimizer := {| params := model_on env cfg m;
                     lr := learning_rate cfg;
                     optimizer_manifold := Some m |} |}.

(** The calls of lines 87-126, in order, when all of them return and the
    manifold is [m]. *)
Definition prepare_calls (env : environment) (cfg : configuration) (m : manifold)
  : list call :=
  let data := data_after_load env cfg in
  let model := model_on env cfg m in
  [ load_dataset (burnin_num cfg >? 0);
    torch_device (device_name cfg);
    torch_set_num_threads 1;
    mp_Queue None;
    get_adjacency_dict data;
    initialize_eval (adjacency_of data) {| maxsize := None |} (tensorboard_dir cfg);
    ManifoldEmbedding_new (Some m) (num_embeddings model) (dimension cfg) (sparse cfg) ]
  ++ (if train_threads cfg >? 1
      then [mp_set_sharing_strategy "file_system"; share_memory model]
      else [])
  ++ [ to model (device_name cfg);
       (if double_precision cfg then double model else float model);
       apply_initialization model (Some m);
       no_grad_enter;
       projx m model;
       no_grad_exit;
       parameters model;
       RiemannianSGD_new model (learning_rate cfg) (Some m) ].

(** A call that lines 87-126 can make, with the arguments the properties
    speak of. *)
Definition preparing (env : environment) (cfg : configuration) (c : call) : Prop :=
  match c with
  | load_dataset b => b = (burnin_num cfg >? 0)
  | mp_Queue size => size = None
  | get_adjacency_dict d => d = data_after_load env cfg
  | torch_device _ | torch_set_num_threads _ | initialize_eval _ _ _
  | ManifoldEmbedding_new _ _ _ _ | mp_set_sharing_strategy _ | share_memory _
  | to _ _ | double _ | float _ | apply_initialization _ _
  | no_grad_enter | no_grad_exit | projx _ _ | parameters _
  | RiemannianSGD_new _ _ _ => True
  | mp_Process _ _ | start _ | join _ | close _ | terminate _ | train _
  | close_thread _ | queue_empty _ | queue_get _ | log_info _ _ => False
  end.

(** ** What the second part of [embed] does *)

(** The process created for worker number [i]. *)
Definition worker (cfg : configuration) (l : locals) (_log : run_logger) (i : Z)
  : Process :=
  {| target := "train"; args := worker_args cfg l _log i |}.

(** The processes of a run, by worker number. *)
Definition workers (cfg : configuration) (l : locals) (_log : run_logger)
  : list Process :=
  map (worker cfg l _log) (range (train_threads cfg)).

(** Creating and starting each process in turn. *)
Definition spawning (procs : list Process) : list call :=
  flat_map (fun p => [mp_Process (target p) (args p); start p]) procs.

(** Closing one process, terminating it when [close] raises. *)
Definition closing (env : environment) (p : Process) : list call :=
  close p :: (if raises env (close p) then [terminate p] else []).

(** The elements of a list up to and including the first that fails. *)
Fixpoint until_fails {A : Type} (fails : A -> bool) (xs : list A) : list A :=
  match xs with
  | [] => []
  | x :: xs' => x :: (if fails x then [] else until_fails fails xs')
  end.

(** A process whose [join] raises. *)
Definition unjoinable (env : environment) (p : Process) : bool :=
  raises env (join p).

(** A process that can be neither closed nor terminated. *)
Definition unreleasable (env : environment) (p : Process) : bool :=
  raises env (close p) && raises env (terminate p).

(** Emptying a queue that holds [msgs]. *)
Definition draining (q : Queue) (_log : run_logger) (msgs : list string)
  : list call :=
  (flat_map (fun msg => [queue_empty q; queue_get q; log_info _log msg]) msgs
   ++ [queue_empty q])%list.

(** The messages the loop of lines 154-156 reads when nothing raises:
    those before the first for which [empty()] answers [True]. *)
Fixpoint reported (says : nat -> bool) (read : nat) (pending : list string)
  : list string :=
  match pending with
  | [] => []
  | msg :: rest => if says read then [] else msg :: reported says (S read) rest
  end.

(** The messages a trace hands to the run's logger, in order. *)
Definition logged (t : list call) : list string :=
  flat_map (fun c => match c with log_info _ msg => [msg] | _ => [] end) t.

(** The function or method a call is made to. *)
Definition callee (c : call) : string :=
  match c with
  | load_dataset _ => "load_dataset"
  | torch_device _ => "torch.device"
  | torch_set_num_threads _ => "torch.set_num_threads"
  | mp_Queue _ => "mp.Queue"
  | get_adjacency_dict _ => "get_adjacency_dict"
  | initialize_eval _ _ _ => "initialize_eval"
  | ManifoldEmbedding_new _ _ _ _ => "ManifoldEmbedding"
  | mp_set_sharing_strategy _ => "mp.set_sharing_strategy"
  | share_memory _ => "share_memory"
  | to _ _ => "to"
  | double _ => "double"
  | float _ => "float"
  | apply_initialization _ _ => "apply_initialization"
  | no_grad_enter => "no_grad enter"
  | no_grad_exit => "no_grad exit"
  | projx _ _ => "_projx"
  | parameters _ => "parameters"
  | RiemannianSGD_new _ _ _ => "RiemannianSGD"
  | mp_Process _ _ => "mp.Process"
  | start _ => "start"
  | join _ => "join"
  | close _ => "close"
  | terminate _ => "terminate"
  | train _ => "train"
  | close_thread _ => "close_thread"
  | queue_empty _ => "empty"
  | queue_get _ => "get"
  | log_info _ _ => "info"
  end.

(** The part of [embed] a call belongs to. *)
Inductive phase : Type :=
| Preparing
| Working
| Cleaning
| Draining.

Definition phase_of (c : call) : phase :=
  match c with
  | mp_Process _ _ | start _ | join _ | train _ => Working
  | close _ | terminate _ | close_thread _ => Cleaning
  | queue_empty _ | queue_get _ | log_info _ _ => Draining
  | _ => Preparing
  end.


(** A call [training] can make for the run of [cfg] with locals [l]. *)
Definition working (cfg : configuration) (l : locals) (_log : run_logger)
    (c : call) : Prop :=
  match c with
  | mp_Process tgt a => tgt = "train" /\ exists i, a = worker_args cfg l _log i
  | start p | join p | close p | terminate p => exists i, p = worker cfg l _log i
  | train a => a = worker_args cfg l _log 0
  | close_thread wait_to_finish => wait_to_finish = true
  | _ => False
  end.

(** A call the loop of lines 154-156 can make. *)
Definition emptying (q : Queue) (_log : run_logger) (c : call) : Prop :=
  match c with
  | queue_empty q' | queue_get q' => q' = q
  | log_info lg _ => lg = _log
  | _ => False
  end.

(** The call returns in this environment. *)
Definition quiet (env : environment) (c : call) : Prop :=
  raises env c = false.

(** Every call of the computation satisfies [P]; the store keeps [I]; a
    returned value satisfies [Q]. *)
Definition confined {A : Type} (P : call -> Prop) (I : store -> Prop)
    (m : M A) (Q : A -> Prop) : Prop :=
  forall s t s' r,
    I s -> m s = (t, s', r) ->
    Forall P t /\ I s' /\ forall a, r = Ret a -> Q a.


(** The calls that set a worker going: [start] on a process, or [train]
    itself in the parent. *)
Definition starts_worker (c : call) : bool :=
  match c with
  | start _ | train _ => true
  | _ => false
  end.


(** The processes in [threads] are workers of this run. *)
Definition staffed (cfg : configuration) (l : locals) (_log : run_logger)
    (s : store) : Prop :=
  Forall (fun p => exists i, p = worker cfg l _log i) (threads s).


(** Waiting for a process or releasing it. *)
Definition reaps (c : call) : Prop :=
  match c with
  | join _ | close _ | terminate _ => True
  | _ => False
  end.

(** ** The embedding weights *)

(** What the external calls do to [model.weight.data], a tensor of some
    type [W]: [apply_initialization] and [_projx] are called for their
    effect on it, their results being dropped. *)
Record tensor_ops (W : Type) : Type := {
  moved : string -> W -> W;
  doubled : W -> W;
  floated : W -> W;
  initialized : option manifold -> W -> W;
  projected : manifold -> W -> W;
  trained : train_args -> W -> W;
  on_manifold : manifold -> W -> Prop
}.
Arguments moved {W}.
Arguments doubled {W}.
Arguments floated {W}.
Arguments initialized {W}.
Arguments projected {W}.
Arguments trained {W}.
Arguments on_manifold {W}.

(** The effect of one call on the weights, as the parent sees them. *)
Definition effect {W : Type} (ops : tensor_ops W) (c : call) (w : W) : W :=
  match c with
  | to _ d => moved ops d w
  | double _ => doubled ops w
  | float _ => floated ops w
  | apply_initialization _ m => initialized ops m w
  | projx m _ => projected ops m w
  | train a => trained ops a w
  | _ => w
  end.

(** The weights after a sequence of calls. *)
Definition replay {W : Type} (ops : tensor_ops W) (calls : list call) (w : W) : W :=
  fold_left (fun w c => effect ops c w) calls w.

(** The calls that write the weights. *)
Definition writes_weights (c : call) : bool :=
  match c with
  | to _ _ | double _ | float _ | apply_initialization _ _ | projx _ _
  | train _ => true
  | _ => false
  end.

(** ** Sample runs *)

Definition noon : datetime :=
  {| year := 2019; month := 7; day := 4; hour := 12; minute := 0; second := 9 |}.

Definition triangle : dataset :=
  {| objects := ["a"; "b"; "c"]; neg_multiplier := PyInt 10 |}.

(** An environment in which every call returns. *)
Definition calm : environment :=
  {| raises := fun _ => false;
     loaded := fun _ => triangle;
     queued := ["epoch 0"; "epoch 1"];
     says_empty := fun _ => false;
     recursion_limit := 1000 |}.

(** An environment in which no process can be joined, closed or
    terminated. *)
Definition stuck : environment :=
  {| raises := fun c => match c with
                        | join _ | close _ | terminate _ => true
                        | _ => false
                        end;
     loaded := fun _ => triangle;
     queued := [];
     says_empty := fun _ => false;
     recursion_limit := 1000 |}.



Definition sacred_log : run_logger := RunLogger "Embed".

(** The default hyperparameters with a product among the submanifolds. *)
Definition nested_product : hyperparameters :=
  {| n_epochs := 200;
     dimension := 50;
     manifold_name := "Product";
     eval_every := 20;
     gpu := -1;
     train_threads := 5;
     submanifold_names := ["PoincareBall"; "Product"];
     double_precision := true;
     submanifold_shapes := [[15]; [35]];
     learning_rate := PyInt 1;
     sparse := true;
     burnin_num := 10;
     burnin_lr_mult := PyFloat "0.01";
     burnin_neg_multiplier := PyFloat "0.1" |}.

(** The default hyperparameters with a manifold name the builder does not
    know, and with a single worker. *)
Definition torus : hyperparameters :=
  {| n_epochs := 200;
     dimension := 50;
     manifold_name := "Torus";
     eval_every := 20;
     gpu := -1;
     train_threads := 1;
     submanifold_names := [];
     double_precision := true;
     submanifold_shapes := [];
     learning_rate := PyInt 1;
     sparse := true;
     burnin_num := 10;
     burnin_lr_mult := PyFloat "0.01";
     burnin_neg_multiplier := PyFloat "0.1" |}.


(** An environment in which the second worker cannot be joined, the first
    and the fourth cannot be closed, and the fifth could not be
    terminated. *)
Definition restless : environment :=
  {| raises := fun c => match c with
                        | join p => arg_thread_number (args p) =? 1
                        | close p => (arg_thread_number (args p) =? 0)
                                     || (arg_thread_number (args p) =? 3)
                        | terminate p => arg_thread_number (args p) =? 4
                        | _ => false
                        end;
     loaded := fun _ => triangle;
     queued := ["epoch 0"; "epoch 1"];
     says_empty := fun _ => false;
     recursion_limit := 1000 |}.

(** The default hyperparameters without burn-in and with a single worker. *)
Definition plain : hyperparameters :=
  {| n_epochs := 200;
     dimension := 50;
     manifold_name := "Sphere";
     eval_every := 20;
     gpu := 0;
     train_threads := 1;
     submanifold_names := [];
     double_precision := false;
     submanifold_shapes := [];
     learning_rate := PyFloat "0.3";
     sparse := true;
     burnin_num := 0;
     burnin_lr_mult := PyFloat "0.01";
     burnin_neg_multiplier := PyFloat "0.1" |}.

(** What [get_embed_manifold] answers for a name other than "Product". *)
Definition leaf (name : string) : option manifold :=
  if (name =? "Euclidean")%string then Some Euclidean
  else if (name =? "PoincareBall")%string then Some PoincareBall
  else if (name =? "Sphere")%string then Some Sphere
  else None.

(** A machine whose compiler is clang as shipped by Apple. *)
Definition apple : Setup.build_env :=
  {| Setup.config_CC := Some "clang -arch x86_64";
     Setup.check_output := fun argv =>
       match argv with
       | [cc; _] => if (cc =? "clang")%string
                    then Some "Apple LLVM version 10.0.1" else None
       | _ => None
       end;
     Setup.numpy_get_include := "/usr/include/numpy";
     Setup.cythonize := fun exts => exts |}.

(** A machine whose configured compiler is not installed. *)
Definition bare : Setup.build_env :=
  {| Setup.config_CC := Some "/opt/llvm/bin/clang++ -pthread -O2";
     Setup.check_output := fun _ => None;
     Setup.numpy_get_include := "/usr/include/numpy";
     Setup.cythonize := fun exts => exts |}.

(** Weights on a line, with the interval from -1 to 1 as every manifold
    and clamping as projection. *)
Definition interval_ops : tensor_ops Z :=
  {| moved := fun _ w => w;
     doubled := fun w => w;
     floated := fun w => w;
     initialized := fun _ w => w + 7;
     projected := fun _ w => Z.max (-1) (Z.min 1 w);
     trained := fun _ w => w - 3;
     on_manifold := fun _ w => -1 <= w <= 1 |}.


(** * More vocabulary *)

(** [n] spaces. *)
Fixpoint spaces (n : nat) : string :=
  match n with
  | O => EmptyString
  | S n' => String " " (spaces n')
  end.

(** [int(s)] for a string of decimal digits. *)
Definition decimal_value (s : string) : Z :=
  let fix go (acc : Z) (s : string) : Z :=
    match s with
    | EmptyString => acc
    | String c r => go (10 * acc + (Z.of_nat (nat_of_ascii c) - 48)) r
    end in
  go 0 s.

(** A date and time [datetime.now()] can return, from the year 1000 on. *)
Definition valid_clock (t : datetime) : Prop :=
  1000 <= year t <= 9999 /\ 1 <= month t <= 12 /\ 1 <= day t <= 31 /\
  0 <= hour t <= 23 /\ 0 <= minute t <= 59 /\ 0 <= second t <= 59.

(** An environment in which [train] raises. *)
Definition failing_train : environment :=
  {| raises := fun c => match c with train _ => true | _ => false end;
     loaded := fun _ => triangle;
     queued := ["epoch 0"];
     says_empty := fun _ => false;
     recursion_limit := 1000 |}.

(** An environment in which the third worker cannot be started. *)
Definition failing_start : environment :=
  {| raises := fun c => match c with
                        | start p => arg_thread_number (args p) =? 2
                        | close p => arg_thread_number (args p) <? 2
                        | _ => false
                        end;
     loaded := fun _ => triangle;
     queued := ["epoch 0"];
     says_empty := fun _ => false;
     recursion_limit := 1000 |}.

(** An environment in which the third worker cannot be created. *)
Definition failing_create : environment :=
  {| raises := fun c => match c with
                        | mp_Process _ a => arg_thread_number a =? 2
                        | _ => false
                        end;
     loaded := fun _ => triangle;
     queued := ["epoch 0"];
     says_empty := fun _ => false;
     recursion_limit := 1000 |}.

(** An environment in which the logger rejects one message. *)
Definition failing_logger : environment :=
  {| raises := fun c => match c with
                        | log_info _ msg => (msg =? "epoch 1")%string
                        | _ => false
                        end;
     loaded := fun _ => triangle;
     queued := ["epoch 0"; "epoch 1"; "epoch 2"];
     says_empty := fun _ => false;
     recursion_limit := 1000 |}.

(** A later second of the same minute as [noon]. *)
Definition later : datetime :=
  {| year := 2019; month := 7; day := 4; hour := 12; minute := 0; second := 10 |}.

(** A failure the run may have met and still returned: only that of a
    [close]. *)
Definition forgiven (env : environment) (c : call) : Prop :=
  raises env c = true -> exists p, c = close p.

(** When the computation returns, the only calls that raised in it are
    calls of [close]. *)
Definition lenient {A : Type} (env : environment) (m : M A) : Prop :=
  forall s t s' r a,
    m s = (t, s', r) -> r = Ret a -> Forall (forgiven env) t.

(** An environment in which no process can be closed, as with an
    interpreter whose processes have no [close]. *)
Definition no_close : environment :=
  {| raises := fun c => match c with close _ => true | _ => false end;
     loaded := fun _ => triangle;
     queued := ["epoch 0"];
     says_empty := fun _ => false;
     recursion_limit := 1000 |}.


(** * Properties *)

(** ** Strings *)

Lemma append_assoc (a b c : string) : (a ++ b) ++ c = a ++ (b ++ c).
Proof.
  induction a as [|x a IH]; simpl; [reflexivity | now rewrite IH].
Qed.

Lemma append_nil_r (a : string) : a ++ EmptyString = a.
Proof.
  induction a as [|x a IH]; simpl; [reflexivity | now rewrite IH].
Qed.

Lemma prefix_append (a b : string) : prefix a (a ++ b) = true.
Proof.
  induction a as [|x a IH]; simpl.
  - now destruct b.
  - destruct (ascii_dec x x) as [_|ne]; [exact IH | now elim ne].
Qed.

Lemma contains_here (a t b : string) : contains (a ++ t ++ b) t.
Proof. now exists a, b. Qed.

Lemma contains_append_r (s t u : string) : contains s t -> contains (s ++ u) t.
Proof.
  intros (a & b & ->). exists a, (b ++ u).
  now rewrite !append_assoc.
Qed.

Lemma contains_append_l (s t u : string) : contains s t -> contains (u ++ s) t.
Proof.
  intros (a & b & ->). exists (u ++ a), b.
  now rewrite !append_assoc.
Qed.

(** ** The configuration *)

(** The time stamp [config] appends, field by field. *)
Lemma strftime_stamp (t : datetime) :
  strftime t "-%m:%d:%Y-%H:%M:%S" =
  "-" ++ zfill 2 (str_int (month t)) ++ ":" ++ zfill 2 (str_int (day t))
      ++ ":" ++ zfill 4 (str_int (year t)) ++ "-"
      ++ zfill 2 (str_int (hour t)) ++ ":" ++ zfill 2 (str_int (minute t))
      ++ ":" ++ zfill 2 (str_int (second t)).
Proof.
  cbn [strftime Ascii.eqb Bool.eqb directive].
  rewrite append_nil_r. reflexivity.
Qed.

(** C5.  Run artifacts go to a file storage observer on the directory
    "experiments", the only observer of the experiment.  For every choice of
    hyperparameters, [tensorboard_dir] starts with "runs/", contains the
    manifold name, the dimension and the learning rate, contains the
    comma-joined submanifold names when the manifold name is "Product", and
    ends with the run's date and time formatted by -%m:%d:%Y-%H:%M:%S. *)
Theorem tensorboard_dir_encodes_run (h : hyperparameters) (clock : datetime) :
  let dir := tensorboard_dir (config h clock) in
  observers ex = [FileStorageObserver "experiments"] /\
  prefix "runs/" dir = true /\
  contains dir (manifold_name h) /\
  contains dir (str_int (dimension h)) /\
  contains dir (str (learning_rate h)) /\
  (manifold_name h = "Product" ->
   contains dir (str_join "," (submanifold_names h))) /\
  ends_with dir (strftime clock "-%m:%d:%Y-%H:%M:%S") /\
  now (config h clock) = clock.
Proof.
  cbv zeta. unfold config. cbn [tensorboard_dir now].
  set (stamp := strftime clock _).
  set (base := "runs/" ++ manifold_name h ++ "-" ++ str_int (dimension h)
                       ++ "D-LR" ++ str (learning_rate h)).
  assert (Hname : contains base (manifold_name h)).
  { exact (contains_here "runs/" _ _). }
  assert (Hdim : contains base (str_int (dimension h))).
  { exists ("runs/" ++ manifold_name h ++ "-"), ("D-LR" ++ str (learning_rate h)).
    unfold base. now rewrite !append_assoc. }
  assert (Hlr : contains base (str (learning_rate h))).
  { exists ("runs/" ++ manifold_name h ++ "-" ++ str_int (dimension h) ++ "D-LR"),
           EmptyString.
    unfold base. now rewrite !append_assoc, append_nil_r. }
  assert (Hpre : forall rest, prefix "runs/" (base ++ rest) = true).
  { intros rest. unfold base. rewrite append_assoc. apply prefix_append. }
  split; [reflexivity|].
  destruct (String.eqb_spec (manifold_name h) "Product") as [Heq|Hne].
  - repeat split.
    + rewrite append_assoc. apply Hpre.
    + now do 2 apply contains_append_r.
    + now do 2 apply contains_append_r.
    + now do 2 apply contains_append_r.
    + intros _. apply contains_append_r.
      exists (base ++ "-Subs["), "]". now rewrite !append_assoc.
    + now eexists.
  - repeat split.
    + apply Hpre.
    + now apply contains_append_r.
    + now apply contains_append_r.
    + now apply contains_append_r.
    + intros Heq. now elim Hne.
    + now eexists.
Qed.

Lemma tensorboard_dir_encodes_run_witness :
  tensorboard_dir (config defaults noon) =
    "runs/Product-50D-LR1-Subs[PoincareBall,PoincareBall,Euclidean]-07:04:2019-12:00:09"
  /\ contains (tensorboard_dir (config defaults noon))
              "PoincareBall,PoincareBall,Euclidean".
Proof.
  split; [reflexivity|].
  apply (tensorboard_dir_encodes_run defaults noon).
  reflexivity.
Defined.

(** ** The manifold builder *)

Lemma get_embed_manifold_leaf (depth : nat) (cfg : configuration) (name : string) :
  name <> "Product" ->
  get_embed_manifold (S depth) cfg (Some name) = Ret (leaf name).
Proof.
  intros Hne. apply String.eqb_neq in Hne.
  unfold leaf. cbn [get_embed_manifold].
  destruct (name =? "Euclidean")%string; [reflexivity|].
  destruct (name =? "PoincareBall")%string; [reflexivity|].
  destruct (name =? "Sphere")%string; [reflexivity|].
  now rewrite Hne.
Qed.

Lemma comprehension_leaves (depth : nat) (cfg : configuration) (names : list string) :
  ~ In "Product" names ->
  comprehension (fun name => get_embed_manifold (S depth) cfg (Some name)) names
  = Ret (map leaf names).
Proof.
  induction names as [|name names IH]; intros Hnot; cbn [comprehension map].
  - reflexivity.
  - rewrite get_embed_manifold_leaf.
    + rewrite IH; [reflexivity|]. intros Hin. apply Hnot. now right.
    + intros ->. apply Hnot. now left.
Qed.

(** A product nested in a product never comes back: the inner call reads
    the same [submanifold_names] from the configuration. *)
Lemma nested_product_recurses (depth : nat) (cfg : configuration) (arg : option string) :
  match arg with Some n => n | None => manifold_name cfg end = "Product" ->
  In "Product" (submanifold_names cfg) ->
  get_embed_manifold depth cfg arg = Raise RecursionError.
Proof.
  revert arg. induction depth as [|depth IH]; intros arg Hname Hin.
  - reflexivity.
  - cbn [get_embed_manifold]. rewrite Hname. cbn.
    pose proof (IH (Some "Product") eq_refl Hin) as Hrec.
    assert (Hc : forall names, In "Product" names ->
                 comprehension
                   (fun name => get_embed_manifold depth cfg (Some name))
                   names = Raise RecursionError).
    { induction names as [|name names IHn]; [contradiction|].
      cbn [comprehension]. intros [->|Hin'].
      - now rewrite Hrec.
      - destruct (get_embed_manifold depth cfg (Some name)) as [y|[]];
          [|reflexivity].
        now rewrite IHn. }
    now rewrite Hc.
Qed.

(** C6, as amended.  The names "Euclidean", "PoincareBall" and "Sphere" map
    to the manifolds of those names; and for "Product", when no submanifold
    name is itself "Product", the result is the product of what
    [get_embed_manifold] returns for each submanifold name, in order, with
    the array of the submanifold shapes. *)
Theorem get_embed_manifold_builds (depth : nat) (cfg : configuration) :
  get_embed_manifold (S depth) cfg (Some "Euclidean") = Ret (Some Euclidean) /\
  get_embed_manifold (S depth) cfg (Some "PoincareBall") = Ret (Some PoincareBall) /\
  get_embed_manifold (S depth) cfg (Some "Sphere") = Ret (Some Sphere) /\
  (~ In "Product" (submanifold_names cfg) ->
   exists submanifolds,
     get_embed_manifold (S (S depth)) cfg (Some "Product")
     = Ret (Some (Product submanifolds (np_array (submanifold_shapes cfg)))) /\
     Forall2 (fun name sub => get_embed_manifold (S depth) cfg (Some name) = Ret sub)
             (submanifold_names cfg) submanifolds).
Proof.
  repeat split; try reflexivity.
  intros Hnot. exists (map leaf (submanifold_names cfg)). split.
  - change (get_embed_manifold (S (S depth)) cfg (Some "Product"))
      with (match comprehension
                    (fun name => get_embed_manifold (S depth) cfg (Some name))
                    (submanifold_names cfg) with
            | Raise e => Raise e
            | Ret subs =>
                Ret (Some (Product subs (np_array (submanifold_shapes cfg))))
            end).
    now rewrite comprehension_leaves.
  - induction (submanifold_names cfg) as [|name names IH]; cbn [map].
    + constructor.
    + constructor.
      * apply get_embed_manifold_leaf. intros ->. apply Hnot. now left.
      * apply IH. intros Hin. apply Hnot. now right.
Qed.

Lemma get_embed_manifold_builds_witness :
  exists submanifolds,
    get_embed_manifold 2 (config defaults noon) (Some "Product")
    = Ret (Some (Product submanifolds [[15]; [15]; [20]])) /\
    Forall2 (fun name sub =>
               get_embed_manifold 1 (config defaults noon) (Some name) = Ret sub)
            ["PoincareBall"; "PoincareBall"; "Euclidean"] submanifolds.
Proof.
  apply (get_embed_manifold_builds 0 (config defaults noon)).
  cbn. intros [H|[H|[H|[]]]]; discriminate H.
Defined.

(** C6 as stated fails: with a submanifold named "Product" the call for
    "Product" returns no manifold, however deep the interpreter may nest. *)
Lemma nested_product_never_returns :
  ~ exists depth m,
      get_embed_manifold depth (config nested_product noon) (Some "Product") = Ret m.
Proof.
  intros (depth & m & H).
  rewrite nested_product_recurses in H.
  - discriminate H.
  - reflexivity.
  - cbn. now right; left.
Qed.

(** C9.  A manifold name other than "Euclidean", "PoincareBall", "Sphere"
    and "Product" is not rejected: [get_embed_manifold] returns [None],
    whether the name is passed or read from the configuration. *)
Theorem get_embed_manifold_unknown_name (depth : nat) (cfg : configuration)
    (arg : option string) :
  let name := match arg with Some n => n | None => manifold_name cfg end in
  ~ In name ["Euclidean"; "PoincareBall"; "Sphere"; "Product"] ->
  get_embed_manifold (S depth) cfg arg = Ret None.
Proof.
  cbv zeta. intros Hnot. cbn [get_embed_manifold].
  set (name := match arg with Some n => n | None => manifold_name cfg end) in *.
  assert (H : forall known,
             In known ["Euclidean"; "PoincareBall"; "Sphere"; "Product"] ->
             (name =? known)%string = false).
  { intros known Hin. apply String.eqb_neq. intros ->. now apply Hnot. }
  rewrite !H; [reflexivity | | | |]; cbn; tauto.
Qed.

Lemma get_embed_manifold_unknown_name_witness :
  get_embed_manifold 1 (config defaults noon) (Some "Torus") = Ret None.
Proof.
  apply (get_embed_manifold_unknown_name 0 (config defaults noon) (Some "Torus")).
  cbn. intros [H|[H|[H|[H|[]]]]]; discriminate H.
Defined.

(** ** The build script *)

(** C8.  Whenever the compiler answers [--version], the script defines one
    extension, named "data.graph_dataset", built from
    data/graph_dataset.pyx as C++ with -std=c++11 among its compile
    arguments, and passes the cythonized list to [setup] as the extension
    modules of the package riemann. *)
Theorem setup_builds_graph_dataset (env : Setup.build_env) (out : string) :
  let CC := first_field
              (match Setup.config_CC env with Some cc => cc | None => "gcc" end) in
  Setup.check_output env [CC; "--version"] = Some out ->
  exists ext call,
    Setup.extensions env out = [ext] /\
    Setup.ext_name ext = "data.graph_dataset" /\
    Setup.sources ext = ["data/graph_dataset.pyx"] /\
    Setup.language ext = "c++" /\
    In "-std=c++11" (Setup.extra_compile_args ext) /\
    Setup.script env = Ret call /\
    Setup.ext_modules call = Setup.cythonize env [ext] /\
    Setup.packages call = ["riemann"] /\
    Setup.package_dir call = [("riemann", ".")].
Proof.
  cbv zeta. intros Hout. unfold Setup.script. rewrite Hout.
  unfold Setup.extensions. eexists. eexists.
  repeat split; cbn.
  unfold Setup.compile_args.
  destruct (Setup.search_apple_llvm _); cbn; tauto.
Qed.

Lemma setup_builds_graph_dataset_witness :
  exists ext call,
    Setup.extensions apple "Apple LLVM version 10.0.1" = [ext] /\
    Setup.ext_name ext = "data.graph_dataset" /\
    Setup.sources ext = ["data/graph_dataset.pyx"] /\
    Setup.language ext = "c++" /\
    In "-std=c++11" (Setup.extra_compile_args ext) /\
    Setup.script apple = Ret call /\
    Setup.ext_modules call = Setup.cythonize apple [ext] /\
    Setup.packages call = ["riemann"] /\
    Setup.package_dir call = [("riemann", ".")].
Proof.
  apply (setup_builds_graph_dataset apple "Apple LLVM version 10.0.1").
  reflexivity.
Defined.

(** ** The computations *)

Lemma bind_inv {A B : Type} (m : M A) (f : A -> M B) (s : store)
    (t : list call) (s' : store) (r : outcome exn B) :
  bind m f s = (t, s', r) ->
  (exists t1 s1 a t2,
      m s = (t1, s1, Ret a) /\ f a s1 = (t2, s', r) /\ t = (t1 ++ t2)%list) \/
  (exists e, m s = (t, s', Raise e) /\ r = Raise e).
Proof.
  unfold bind. destruct (m s) as [[t1 s1] [a|e]].
  - destruct (f a s1) as [[t2 s2] r2] eqn:Hf. intros [= <- <- <-].
    left. now exists t1, s1, a, t2.
  - intros [= <- <- <-]. right. now exists e.
Qed.

Lemma invoke_inv {A : Type} (env : environment) (c : call) (a : A) (s : store)
    (t : list call) (s' : store) (r : outcome exn A) :
  invoke env c a s = (t, s', r) ->
  t = [c] /\ s' = s /\
  ((raises env c = false /\ r = Ret a) \/
   (raises env c = true /\ r = Raise (Raised c))).
Proof.
  unfold invoke. intros [= <- <- <-]. repeat split.
  destruct (raises env c); [right | left]; now split.
Qed.

(** Peel the first external call off a computation described by [H]: in
    the first goal the call returned, in the second it raised. *)
Ltac peel H :=
  let t1 := fresh "t" in
  let s1 := fresh "s" in
  let a := fresh "a" in
  let t2 := fresh "t" in
  let e := fresh "e" in
  let Hm := fresh "Hm" in
  let Hq := fresh "Hquiet" in
  let Hl := fresh "Hloud" in
  apply bind_inv in H;
  destruct H as [(t1 & s1 & a & t2 & Hm & H & ->) | (e & Hm & ->)];
  apply invoke_inv in Hm;
  [ destruct Hm as (-> & -> & [(Hq & Hm) | (_ & Hm)]);
    [ injection Hm as -> | discriminate Hm ]
  | destruct Hm as (-> & -> & [(_ & Hm) | (Hl & _)]);
    [ discriminate Hm | ] ];
  cbv beta zeta in H || idtac.

Lemma try_finally_inv {A : Type} (body : M A) (cleanup : M unit) (s : store)
    (t : list call) (s' : store) (r : outcome exn A) :
  try_finally body cleanup s = (t, s', r) ->
  exists t1 s1 r1 t2 r2,
    body s = (t1, s1, r1) /\ cleanup s1 = (t2, s', r2) /\
    t = (t1 ++ t2)%list /\
    r = match r2 with Ret _ => r1 | Raise e => Raise e end.
Proof.
  unfold try_finally. destruct (body s) as [[t1 s1] r1].
  destruct (cleanup s1) as [[t2 s2] [u|e]] eqn:Hc; intros [= <- <- <-].
  - now exists t1, s1, r1, t2, (Ret u).
  - now exists t1, s1, r1, t2, (Raise e).
Qed.

Lemma captured_inv (env : environment) (cfg : configuration) (s : store)
    (t : list call) (s' : store) (r : outcome exn (option manifold)) :
  captured_get_embed_manifold env cfg s = (t, s', r) ->
  t = [] /\ s' = s /\
  match r with
  | Ret m => get_embed_manifold (recursion_limit env) cfg None = Ret m
  | Raise e => e = Recursion
  end.
Proof.
  unfold captured_get_embed_manifold.
  destruct (get_embed_manifold (recursion_limit env) cfg None) as [m|[]];
    intros [= <- <- <-]; now repeat split.
Qed.

Lemma ret_inv {A : Type} (a : A) (s : store)
    (t : list call) (s' : store) (r : outcome exn A) :
  ret a s = (t, s', r) -> t = [] /\ s' = s /\ r = Ret a.
Proof. unfold ret. now intros [= <- <- <-]. Qed.

Lemma bind_returned {A B : Type} (m : M A) (f : A -> M B) (s : store)
    (t1 : list call) (s1 : store) (a : A) :
  m s = (t1, s1, Ret a) ->
  bind m f s = (let '(t2, s2, r) := f a s1 in ((t1 ++ t2)%list, s2, r)).
Proof. unfold bind. now intros ->. Qed.

Lemma bind_raised {A B : Type} (m : M A) (f : A -> M B) (s : store)
    (t1 : list call) (s1 : store) (e : exn) :
  m s = (t1, s1, Raise e) -> bind m f s = (t1, s1, Raise e).
Proof. unfold bind. now intros ->. Qed.

Lemma until_fails_all {A : Type} (fails : A -> bool) (xs : list A) :
  (forall x, In x xs -> fails x = false) -> until_fails fails xs = xs.
Proof.
  induction xs as [|x xs IH]; intros Hxs; cbn [until_fails]; [reflexivity|].
  rewrite (Hxs x (or_introl eq_refl)). f_equal. apply IH.
  intros y Hy. apply Hxs. now right.
Qed.



Lemma until_fails_prefix {A : Type} (fails : A -> bool) (xs : list A) :
  exists later, xs = (until_fails fails xs ++ later)%list.
Proof.
  induction xs as [|x xs (later & IH)]; cbn [until_fails]; [now exists []|].
  destruct (fails x).
  - now exists xs.
  - exists later. cbn [app]. now rewrite <- IH.
Qed.

Lemma if_invoke {A : Type} (env : environment) (b : bool) (c1 c2 : call) (a : A) :
  (if b then invoke env c1 a else invoke env c2 a)
  = invoke env (if b then c1 else c2) a.
Proof. now destruct b. Qed.

(** Settle the store and the shape of the trace of a block of calls. *)
Ltac block :=
  split; [reflexivity |
  split; [intros ? **; cbn [app]; repeat constructor; auto | ]].

(** Lines 105-107: the sharing block. *)
Lemma share_inv (env : environment) (b : bool) (model : ManifoldEmbedding)
    (s : store) (t : list call) (s' : store) (r : outcome exn ManifoldEmbedding) :
  (if b
   then invoke env (mp_set_sharing_strategy "file_system") tt ;;
        invoke env (share_memory model) model
   else ret model) s = (t, s', r) ->
  s' = s /\
  (forall P : call -> Prop,
      P (mp_set_sharing_strategy "file_system") -> P (share_memory model) ->
      Forall P t) /\
  forall a, r = Ret a ->
    a = model /\
    t = (if b then [mp_set_sharing_strategy "file_system"; share_memory model]
         else []) /\
    Forall (fun c => raises env c = false) t.
Proof.
  destruct b; intros H.
  - peel H.
    + apply invoke_inv in H. destruct H as (-> & -> & [(Hq & ->) | (_ & ->)]).
      * block. intros a [= <-]. now repeat constructor.
      * block. intros a [=].
    + block. intros a [=].
  - apply ret_inv in H. destruct H as (-> & -> & ->).
    block. intros a [= <-]. now repeat constructor.
Qed.

(** Lines 116-117: the projection under [torch.no_grad()]. *)
Lemma projection_inv (env : environment) (manifold : option manifold)
    (model : ManifoldEmbedding)
    (s : store) (t : list call) (s' : store) (r : outcome exn unit) :
  with_no_grad env
    (match manifold with
     | Some m => invoke env (projx m model) tt
     | None => raise AttributeError
     end) s = (t, s', r) ->
  s' = s /\
  (forall P : call -> Prop,
      P no_grad_enter -> P no_grad_exit -> (forall m, P (projx m model)) ->
      Forall P t) /\
  forall a, r = Ret a ->
    exists m, manifold = Some m /\
      t = [no_grad_enter; projx m model; no_grad_exit] /\
      Forall (fun c => raises env c = false) t.
Proof.
  unfold with_no_grad, perform. intros H. peel H.
  2:{ block. intros a [=]. }
  apply try_finally_inv in H.
  destruct H as (tb & sb & rb & tc & rc & Hbody & Hexit & -> & ->).
  apply invoke_inv in Hexit. destruct Hexit as (-> & -> & Hexit).
  destruct manifold as [m|].
  - apply invoke_inv in Hbody. destruct Hbody as (-> & -> & Hbody).
    block. intros a Ha. exists m.
    destruct Hexit as [(Hq2 & ->) | (_ & ->)]; [|discriminate Ha].
    destruct Hbody as [(Hq1 & ->) | (_ & ->)]; [|discriminate Ha].
    now repeat constructor.
  - unfold raise in Hbody. injection Hbody as <- <- <-.
    block. intros a Ha. now destruct Hexit as [(_ & ->) | (_ & ->)].
Qed.

(** A single call is one of those lines 87-126 make. *)
Ltac settle :=
  try match goal with
      | |- preparing _ _ (if ?b then _ else _) => destruct b
      end;
  cbn; unfold data_after_load; auto.

(** Close a goal of [prepare_inv] for a run that stopped at a raising call. *)
Ltac stopped :=
  split; [reflexivity |
  split; [repeat (apply Forall_app; split); try assumption;
          repeat constructor; settle |
          intros ? [=] ]].

Lemma prepare_inv (env : environment) (cfg : configuration) (s : store)
    (t : list call) (s' : store) (r : outcome exn locals) :
  prepare env cfg s = (t, s', r) ->
  s' = s /\ Forall (preparing env cfg) t /\
  forall l, r = Ret l ->
    exists m,
      get_embed_manifold (recursion_limit env) cfg None = Ret (Some m) /\
      l = locals_on env cfg m /\ t = prepare_calls env cfg m /\
      Forall (fun c => raises env c = false) t.
Proof.
  unfold prepare, perform, prepare_calls, locals_on, model_on,
    data_after_load, device_name.
  intros H.
  do 6 (peel H; [ | solve [stopped] ]).
  apply bind_inv in H.
  destruct H as [(tm & sm & manifold & t' & Hm & H & ->) | (e & Hm & ->)];
    apply captured_inv in Hm; destruct Hm as (-> & -> & Hfound);
    [ | solve [stopped] ].
  cbv beta zeta in H.
  peel H; [ | solve [stopped] ].
  apply bind_inv in H.
  destruct H as [(ts & ss & shared_model & t' & Hm & H & ->) | (e & Hm & ->)];
    apply share_inv in Hm; destruct Hm as (-> & Hshare & Hshared);
    pose proof (Hshare (preparing env cfg) I I) as Hsharing;
    [ | solve [stopped] ].
  destruct (Hshared _ eq_refl) as (-> & -> & Hsq). clear Hshared Hshare.
  cbv beta zeta in H.
  peel H; [ | solve [stopped] ].
  rewrite if_invoke in H.
  do 2 (peel H; [ | solve [stopped] ]).
  apply bind_inv in H.
  destruct H as [(tp & sp & u & t' & Hm & H & ->) | (e & Hm & ->)];
    apply projection_inv in Hm; destruct Hm as (-> & Hproj & Hprojected);
    pose proof (Hproj (preparing env cfg) I I (fun _ => I)) as Hprojecting;
    [ | solve [stopped] ].
  destruct (Hprojected _ eq_refl) as (m & -> & -> & Hpq). clear Hprojected Hproj.
  cbv beta zeta in H.
  do 2 (peel H; [ | solve [stopped] ]).
  apply ret_inv in H. destruct H as (-> & -> & ->).
  split; [reflexivity|]. split.
  - repeat (apply Forall_app; split); try assumption;
      repeat constructor; settle.
  - intros l [= <-]. exists m. split; [exact Hfound|].
    split; [reflexivity|]. split; [reflexivity|].
    repeat (apply Forall_app; split); try assumption; repeat constructor;
      assumption.
Qed.

(** ** Loops and handlers *)

Section Loops.

Variable env : environment.

Lemma try_except_inv {A : Type} (body handler : M A) (s : store)
    (t : list call) (s' : store) (r : outcome exn A) :
  try_except body handler s = (t, s', r) ->
  (exists a, body s = (t, s', Ret a) /\ r = Ret a) \/
  (exists t1 s1 e t2,
      body s = (t1, s1, Raise e) /\ handler s1 = (t2, s', r) /\
      t = (t1 ++ t2)%list).
Proof.
  unfold try_except. destruct (body s) as [[t1 s1] [a|e]].
  - intros [= <- <- <-]. left. now exists a.
  - destruct (handler s1) as [[t2 s2] r2] eqn:Hh. intros [= <- <- <-].
    right. now exists t1, s1, e, t2.
Qed.

(** *** Which calls a computation makes *)

Section Confined.

Variable P : call -> Prop.
Variable I : store -> Prop.

Lemma confined_invoke {A : Type} (c : call) (a : A) (Q : A -> Prop) :
  P c -> Q a -> confined P I (invoke env c a) Q.
Proof.
  intros Hc Ha s t s' r Hs H. apply invoke_inv in H.
  destruct H as (-> & -> & [(_ & ->) | (_ & ->)]);
    (split; [now repeat constructor | split; [assumption|]]).
  - now intros b [= <-].
  - intros b [=].
Qed.

Lemma confined_ret {A : Type} (a : A) (Q : A -> Prop) :
  Q a -> confined P I (ret a) Q.
Proof.
  intros Ha s t s' r Hs H. apply ret_inv in H. destruct H as (-> & -> & ->).
  split; [constructor | split; [assumption | now intros b [= <-]]].
Qed.

Lemma confined_bind {A B : Type} (m : M A) (f : A -> M B)
    (Q : A -> Prop) (R : B -> Prop) :
  confined P I m Q -> (forall a, Q a -> confined P I (f a) R) ->
  confined P I (bind m f) R.
Proof.
  intros Hm Hf s t s' r Hs H. apply bind_inv in H.
  destruct H as [(t1 & s1 & a & t2 & H1 & H2 & ->) | (e & H1 & ->)].
  - destruct (Hm _ _ _ _ Hs H1) as (HP1 & Hs1 & HQ).
    destruct (Hf a (HQ a eq_refl) _ _ _ _ Hs1 H2) as (HP2 & Hs2 & HR).
    split; [apply Forall_app; now split | now split].
  - destruct (Hm _ _ _ _ Hs H1) as (HP1 & Hs1 & _).
    split; [assumption | split; [assumption | intros b [=]]].
Qed.

Lemma confined_for_each {A : Type} (xs : list A) (body : A -> M unit)
    (Q : A -> Prop) :
  Forall Q xs ->
  (forall x, Q x -> confined P I (body x) (fun _ => True)) ->
  confined P I (for_each xs body) (fun _ => True).
Proof.
  intros Hxs Hbody. induction Hxs as [|x xs Hx Hxs IH]; cbn [for_each].
  - now apply confined_ret.
  - apply confined_bind with (Q := fun _ => True); [now apply Hbody | intros _ _; exact IH].
Qed.

Lemma confined_try_finally {A : Type} (body : M A) (cleanup : M unit)
    (Q : A -> Prop) :
  confined P I body Q -> confined P I cleanup (fun _ => True) ->
  confined P I (try_finally body cleanup) Q.
Proof.
  intros Hb Hc s t s' r Hs H. apply try_finally_inv in H.
  destruct H as (t1 & s1 & r1 & t2 & r2 & H1 & H2 & -> & ->).
  destruct (Hb _ _ _ _ Hs H1) as (HP1 & Hs1 & HQ).
  destruct (Hc _ _ _ _ Hs1 H2) as (HP2 & Hs2 & _).
  split; [apply Forall_app; now split | split; [assumption|]].
  destruct r2 as [u|e]; [exact HQ | intros b [=]].
Qed.

Lemma confined_try_except {A : Type} (body handler : M A) (Q : A -> Prop) :
  confined P I body Q -> confined P I handler Q ->
  confined P I (try_except body handler) Q.
Proof.
  intros Hb Hh s t s' r Hs H. apply try_except_inv in H.
  destruct H as [(a & H1 & ->) | (t1 & s1 & e & t2 & H1 & H2 & ->)].
  - exact (Hb _ _ _ _ Hs H1).
  - destruct (Hb _ _ _ _ Hs H1) as (HP1 & Hs1 & _).
    destruct (Hh _ _ _ _ Hs1 H2) as (HP2 & Hs2 & HQ).
    split; [apply Forall_app; now split | now split].
Qed.

End Confined.

(** *** Returning means nothing raised *)





End Loops.

(** ** The second part of [embed] *)

Section Training.

Variable env : environment.
Variable cfg : configuration.
Variable l : locals.
Variable _log : run_logger.

Lemma reset_bind {A : Type} (k : unit -> M A) (s : store) :
  bind threads_reset k s = k tt {| threads := [] |}.
Proof.
  unfold bind, threads_reset. now destruct (k tt _) as [[t s'] r].
Qed.

Lemma get_bind {A : Type} (k : list Process -> M A) (s : store) :
  bind get_threads k s = k (threads s) s.
Proof.
  unfold bind, get_threads. now destruct (k _ s) as [[t s'] r].
Qed.

(** [threads.append(p)] followed by [threads[-1]] yields [p]. *)
Lemma append_last_bind {A : Type} (p : Process) (k : Process -> M A) (s : store) :
  bind (threads_append p) (fun _ => bind threads_last k) s
  = k p {| threads := (threads s ++ [p])%list |}.
Proof.
  unfold bind, threads_append, threads_last. cbn [threads].
  rewrite rev_app_distr. cbn [rev app].
  now destruct (k p _) as [[t s'] r].
Qed.

(** One round of lines 139-143. *)
Lemma closing_inv (p : Process) (s : store)
    (t : list call) (s' : store) (r : outcome exn unit) :
  try_except (perform env (close p)) (perform env (terminate p)) s = (t, s', r) ->
  s' = s /\ t = closing env p /\
  (r = Ret tt \/ (raises env (close p) = true /\ raises env (terminate p) = true)) /\
  (quiet env (terminate p) -> r = Ret tt).
Proof.
  unfold try_except, perform, invoke, closing, quiet.
  destruct (raises env (close p)); [destruct (raises env (terminate p))|];
    intros [= <- <- <-]; repeat split; auto; discriminate.
Qed.

(** The loop of lines 139-143: processes are closed in order, each
    terminated when its [close] raises, until a [terminate] raises. *)
Lemma closing_loop (ps : list Process) (s : store)
    (t : list call) (s' : store) (r : outcome exn unit) :
  for_each ps (fun thread =>
    try_except (perform env (close thread)) (perform env (terminate thread))) s
  = (t, s', r) ->
  s' = s /\
  exists j, (j <= List.length ps)%nat /\
    t = flat_map (closing env) (firstn j ps) /\
    (r = Ret tt -> j = List.length ps) /\
    ((forall p, In p ps -> quiet env (terminate p)) ->
     j = List.length ps /\ r = Ret tt).
Proof.
  revert s t s' r. induction ps as [|p ps IH]; intros s t s' r H; cbn [for_each] in H.
  - apply ret_inv in H. destruct H as (-> & -> & ->).
    split; [reflexivity|]. now exists 0%nat.
  - apply bind_inv in H.
    destruct H as [(t1 & s1 & [] & t2 & H1 & H2 & ->) | (e & H1 & ->)];
      apply closing_inv in H1; destruct H1 as (-> & -> & Hr & Hq).
    + apply IH in H2. destruct H2 as (-> & j & Hj & -> & Hret & Hall).
      split; [reflexivity|]. exists (S j).
      split; [cbn; lia|]. split; [reflexivity|]. split.
      * intros Hr'. cbn [List.length]. f_equal. now apply Hret.
      * intros Hqs. cbn [List.length].
        destruct Hall as (-> & ->); [|now split].
        intros q Hin. apply Hqs. now right.
    + split; [reflexivity|]. exists 1%nat.
      split; [cbn; lia|]. split; [cbn; now rewrite app_nil_r|]. split.
      * intros [=].
      * intros Hqs. specialize (Hq (Hqs p (or_introl eq_refl))). discriminate Hq.
Qed.

(** The loop of lines 136-137: the processes are joined in order, up to
    and including the first whose [join] raises; its exception ends the
    loop. *)
Lemma join_loop (ps : list Process) (s : store) :
  for_each ps (fun thread => perform env (join thread)) s
  = (map join (until_fails (unjoinable env) ps), s,
     match find (unjoinable env) ps with
     | Some p => Raise (Raised (join p))
     | None => Ret tt
     end).
Proof.
  induction ps as [|p ps IH]; cbn [for_each until_fails find map];
    [reflexivity|].
  assert (Hone : perform env (join p) s
                 = ([join p], s,
                    if unjoinable env p then Raise (Raised (join p)) else Ret tt))
    by reflexivity.
  destruct (unjoinable env p).
  - now rewrite (bind_raised _ _ _ _ _ _ Hone).
  - rewrite (bind_returned _ _ _ _ _ _ Hone), IH. reflexivity.
Qed.

(** One round of lines 139-143. *)
Lemma closing_round (p : Process) (s : store) :
  try_except (perform env (close p)) (perform env (terminate p)) s
  = (closing env p, s,
     if unreleasable env p then Raise (Raised (terminate p)) else Ret tt).
Proof.
  unfold try_except, perform, invoke, closing, unreleasable.
  now destruct (raises env (close p)), (raises env (terminate p)).
Qed.

(** The loop of lines 139-143: the processes are closed in order, each
    terminated when its [close] raises, up to and including the first whose
    [terminate] raises too; its exception ends the loop. *)
Lemma closing_loop_exact (ps : list Process) (s : store) :
  for_each ps (fun thread =>
    try_except (perform env (close thread)) (perform env (terminate thread))) s
  = (flat_map (closing env) (until_fails (unreleasable env) ps), s,
     match find (unreleasable env) ps with
     | Some p => Raise (Raised (terminate p))
     | None => Ret tt
     end).
Proof.
  induction ps as [|p ps IH]; cbn [for_each until_fails find flat_map];
    [reflexivity|].
  pose proof (closing_round p s) as Hone.
  destruct (unreleasable env p).
  - rewrite (bind_raised _ _ _ _ _ _ Hone). cbn [flat_map].
    now rewrite app_nil_r.
  - rewrite (bind_returned _ _ _ _ _ _ Hone), IH. reflexivity.
Qed.

(** The loop of lines 131-134 when creating and starting the workers it
    is run for does not raise. *)
Lemma spawn_loop (numbers : list Z) (ths : list Process) :
  (forall i, In i numbers ->
     quiet env (mp_Process "train" (worker_args cfg l _log i)) /\
     quiet env (start (worker cfg l _log i))) ->
  for_each numbers (fun i =>
    let args := worker_args cfg l _log i in
    p <- invoke env (mp_Process "train" args)
                {| target := "train"; args := args |} ;;
    threads_append p ;;
    last <- threads_last ;;
    perform env (start last)) {| threads := ths |}
  = (spawning (map (worker cfg l _log) numbers),
     {| threads := (ths ++ map (worker cfg l _log) numbers)%list |},
     Ret tt).
Proof.
  revert ths. induction numbers as [|i numbers IH]; intros ths Hquiet;
    cbn [for_each map].
  - unfold ret. now rewrite app_nil_r.
  - destruct (Hquiet i (or_introl eq_refl)) as (Hcreate & Hstart).
    unfold quiet in Hcreate, Hstart.
    match goal with
    | |- bind ?m _ _ = _ =>
        assert (Hone : m {| threads := ths |}
                       = ([mp_Process "train" (worker_args cfg l _log i);
                           start (worker cfg l _log i)],
                          {| threads := (ths ++ [worker cfg l _log i])%list |},
                          Ret tt))
    end.
    { cbv zeta.
      assert (Hnew : invoke env (mp_Process "train" (worker_args cfg l _log i))
                       (worker cfg l _log i) {| threads := ths |}
                     = ([mp_Process "train" (worker_args cfg l _log i)],
                        {| threads := ths |}, Ret (worker cfg l _log i)))
        by (unfold invoke; now rewrite Hcreate).
      unfold worker in Hnew at 1.
      rewrite (bind_returned _ _ _ _ _ _ Hnew).
      rewrite append_last_bind. unfold perform, invoke.
      fold (worker cfg l _log i). now rewrite Hstart. }
    rewrite (bind_returned _ _ _ _ _ _ Hone).
    rewrite IH by (intros j Hj; apply Hquiet; now right).
    cbn [spawning flat_map app]. now rewrite <- app_assoc.
Qed.

(** The loop of lines 154-156: it only makes calls on the queue and the
    logger; when it returns it has read and logged the messages [empty()]
    reported, and it returns whenever none of its calls raises. *)
Lemma drain_inv (q : Queue) (msgs : list string) (read : nat) (s : store)
    (t : list call) (s' : store) (r : outcome exn unit) :
  drain env q _log read msgs s = (t, s', r) ->
  s' = s /\ Forall (emptying q _log) t /\
  (r = Ret tt -> t = draining q _log (reported (says_empty env) read msgs)) /\
  ((forall c, emptying q _log c -> quiet env c) -> r = Ret tt).
Proof.
  revert read s t s' r. induction msgs as [|msg msgs IH]; intros read s t s' r H;
    cbn [drain empty_answer] in H; unfold perform in H.
  - apply bind_inv in H.
    destruct H as [(t1 & s1 & a & t2 & Hm & H & ->) | (e & Hm & ->)];
      apply invoke_inv in Hm; destruct Hm as (-> & -> & [(Hq & Hm) | (Hl & Hm)]);
      try discriminate Hm.
    + injection Hm as ->. apply ret_inv in H. destruct H as (-> & -> & ->).
      split; [reflexivity|]. split; [now repeat constructor|]. now split.
    + split; [reflexivity|]. split; [now repeat constructor|].
      split; [intros [=]|].
      intros Hq. specialize (Hq (queue_empty q) eq_refl). unfold quiet in Hq.
      congruence.
  - assert (Hstop : forall calls c e target,
               Forall (emptying q _log) calls -> In c calls ->
               raises env c = true ->
               s = s /\ Forall (emptying q _log) calls /\
               (@Raise exn unit e = Ret tt -> calls = target) /\
               ((forall c, emptying q _log c -> quiet env c) ->
                @Raise exn unit e = Ret tt)).
    { intros calls c e target Hcalls Hin Hl.
      split; [reflexivity|]. split; [assumption|]. split; [intros [=]|].
      intros Hq. rewrite Forall_forall in Hcalls.
      specialize (Hq c (Hcalls c Hin)). unfold quiet in Hq. congruence. }
    peel H; [|apply (Hstop _ (queue_empty q)); [now repeat constructor | now left | assumption]].
    cbn [reported]. destruct (says_empty env read).
    + apply ret_inv in H. destruct H as (-> & -> & ->).
      split; [reflexivity|]. split; [now repeat constructor|]. now split.
    + peel H; [|apply (Hstop _ (queue_get q)); [now repeat constructor | cbn; tauto | assumption]].
      peel H; [|apply (Hstop _ (log_info _log msg)); [now repeat constructor | cbn; tauto | assumption]].
      apply IH in H. destruct H as (-> & Ht & Hret & Hq).
      split; [reflexivity|]. split; [now repeat constructor|]. split.
      * intros Hr. rewrite (Hret Hr). reflexivity.
      * exact Hq.
Qed.


(** [range(n)] for a positive [n] starts at 0. *)
Lemma range_positive (n : Z) :
  n > 0 -> exists rest, range n = 0 :: rest.
Proof.
  intros Hn. unfold range.
  destruct (Z.to_nat n) as [|k] eqn:Hk; [lia|].
  cbn. now eexists.
Qed.


Lemma confined_get_threads (P : call -> Prop) :
  confined P (staffed cfg l _log) get_threads
    (Forall (fun p => exists i, p = worker cfg l _log i)).
Proof.
  intros s t s' r Hs [= <- <- <-].
  split; [constructor | split; [assumption | now intros a [= <-]]].
Qed.

Lemma confined_threads_append (P : call -> Prop) (p : Process) :
  (exists i, p = worker cfg l _log i) ->
  confined P (staffed cfg l _log) (threads_append p) (fun _ => True).
Proof.
  intros Hp s t s' r Hs [= <- <- <-].
  split; [constructor | split; [|trivial]].
  unfold staffed. cbn [threads]. apply Forall_app. split; [exact Hs|].
  now repeat constructor.
Qed.

Lemma confined_threads_last (P : call -> Prop) :
  confined P (staffed cfg l _log) threads_last (fun p => exists i, p = worker cfg l _log i).
Proof.
  intros s t s' r Hs H. unfold threads_last in H.
  destruct (rev (threads s)) as [|p ps] eqn:Hrev; injection H as <- <- <-;
    (split; [constructor | split; [assumption|]]).
  - intros a [=].
  - intros a [= <-]. unfold staffed in Hs. rewrite Forall_forall in Hs.
    apply Hs. apply in_rev. rewrite Hrev. now left.
Qed.

(** Whatever raises, [training] only makes the calls of [working]. *)
Lemma training_working (s : store)
    (t : list call) (s' : store) (r : outcome exn unit) :
  training env cfg l _log s = (t, s', r) -> Forall (working cfg l _log) t.
Proof.
  unfold training. rewrite reset_bind. intros H.
  match type of H with
  | ?m _ = _ =>
      assert (Hc : confined (working cfg l _log) (staffed cfg l _log) m (fun _ => True));
      [| assert (Hs : staffed cfg l _log {| threads := [] |}) by constructor;
         now apply (Hc _ _ _ _ Hs H)]
  end.
  destruct (train_threads cfg >? 1).
  - apply confined_try_finally.
    + apply confined_bind with (Q := fun _ => True).
      * apply confined_for_each with (Q := fun _ => True);
          [apply Forall_forall; trivial |].
        intros i _. cbv zeta.
        apply confined_bind
          with (Q := fun p => exists i, p = worker cfg l _log i).
        { apply confined_invoke; [split; [reflexivity | now exists i] | now exists i]. }
        intros p Hp.
        apply confined_bind with (Q := fun _ => True);
          [now apply confined_threads_append |].
        intros _ _.
        apply confined_bind
          with (Q := fun p => exists i, p = worker cfg l _log i);
          [apply confined_threads_last |].
        intros last Hlast. now apply confined_invoke.
      * intros _ _.
        apply confined_bind
          with (Q := Forall (fun p => exists i, p = worker cfg l _log i));
          [apply confined_get_threads |].
        intros ths Hths.
        apply confined_for_each
          with (Q := fun p => exists i, p = worker cfg l _log i); [exact Hths|].
        intros p Hp. now apply confined_invoke.
    + apply confined_bind
        with (Q := Forall (fun p => exists i, p = worker cfg l _log i));
        [apply confined_get_threads |].
      intros ths Hths.
      apply confined_bind with (Q := fun _ => True).
      * apply confined_for_each
          with (Q := fun p => exists i, p = worker cfg l _log i); [exact Hths|].
        intros p Hp.
        apply confined_try_except; now apply confined_invoke.
      * intros _ _. now apply confined_invoke.
  - apply confined_try_finally; now apply confined_invoke.
Qed.


(** With one worker, [train] runs in the parent and [close_thread] follows
    whether or not it raised. *)
Lemma training_single (s : store) :
  (train_threads cfg >? 1) = false ->
  training env cfg l _log s
  = ([train (worker_args cfg l _log 0); close_thread true],
     {| threads := [] |},
     if raises env (close_thread true) then Raise (Raised (close_thread true))
     else if raises env (train (worker_args cfg l _log 0))
          then Raise (Raised (train (worker_args cfg l _log 0)))
          else Ret tt).
Proof.
  intros Hone. unfold training. rewrite reset_bind, Hone.
  unfold try_finally, perform, invoke.
  now destruct (raises env (close_thread true)),
               (raises env (train (worker_args cfg l _log 0))).
Qed.

(** Lines 139-144, the [finally] of the multi-process branch. *)
Lemma finally_inv (s : store)
    (t : list call) (s' : store) (r : outcome exn unit) :
  (ths <- get_threads ;;
   for_each ths (fun thread =>
     try_except (perform env (close thread)) (perform env (terminate thread))) ;;
   perform env (close_thread true)) s = (t, s', r) ->
  s' = s /\
  exists j tail,
    (j <= List.length (threads s))%nat /\
    t = (flat_map (closing env) (firstn j (threads s)) ++ tail)%list /\
    (tail = [] \/ tail = [close_thread true]) /\
    (tail = [] -> exists e, r = Raise e) /\
    (r = Ret tt -> quiet env (close_thread true)) /\
    ((forall p, In p (threads s) -> quiet env (terminate p)) ->
     j = List.length (threads s) /\ tail = [close_thread true] /\
     r = if raises env (close_thread true)
         then Raise (Raised (close_thread true)) else Ret tt).
Proof.
  rewrite get_bind. intros H. apply bind_inv in H.
  destruct H as [(t1 & s1 & [] & t2 & H1 & H2 & ->) | (e & H1 & ->)];
    apply closing_loop in H1; destruct H1 as (-> & j & Hj & -> & Hret & Hall).
  - apply invoke_inv in H2. destruct H2 as (-> & -> & Hr).
    split; [reflexivity|]. exists j, [close_thread true].
    split; [assumption|]. split; [reflexivity|]. split; [now right|].
    split; [intros [=]|]. split.
    + intros ->. now destruct Hr as [(Hq & _) | (_ & [=])].
    + intros Hq. destruct (Hall Hq) as (-> & _).
      split; [reflexivity|]. split; [reflexivity|].
      now destruct Hr as [(-> & ->) | (-> & ->)].
  - split; [reflexivity|]. exists j, [].
    split; [assumption|]. split; [now rewrite app_nil_r|]. split; [now left|].
    split; [now exists e|]. split; [intros [=]|].
    intros Hq. now destruct (Hall Hq) as (_ & [=]).
Qed.



(** Lines 139-144, the [finally] of the multi-process branch, exactly. *)
Lemma finally_exact (s : store) :
  (ths <- get_threads ;;
   for_each ths (fun thread =>
     try_except (perform env (close thread)) (perform env (terminate thread))) ;;
   perform env (close_thread true)) s
  = ((flat_map (closing env) (until_fails (unreleasable env) (threads s))
      ++ match find (unreleasable env) (threads s) with
         | Some _ => []
         | None => [close_thread true]
         end)%list,
     s,
     match find (unreleasable env) (threads s) with
     | Some p => Raise (Raised (terminate p))
     | None => if raises env (close_thread true)
               then Raise (Raised (close_thread true)) else Ret tt
     end).
Proof.
  rewrite get_bind.
  pose proof (closing_loop_exact (threads s) s) as Hloop.
  destruct (find (unreleasable env) (threads s)) as [p|].
  - rewrite (bind_raised _ _ _ _ _ _ Hloop). now rewrite app_nil_r.
  - rewrite (bind_returned _ _ _ _ _ _ Hloop).
    unfold perform, invoke. now destruct (raises env (close_thread true)).
Qed.


(** The multi-process branch when creating and starting the workers of
    the run does not raise: every worker is spawned; they are joined in
    order, up to and including the first whose [join] raises; then,
    whatever the joining did, they are closed in order, each terminated
    when its [close] raises, up to and including the first whose
    [terminate] raises too; [close_thread] follows unless there is one. *)
Lemma training_multi (s : store) :
  (train_threads cfg >? 1) = true ->
  (forall p, In p (workers cfg l _log) ->
     quiet env (mp_Process (target p) (args p)) /\ quiet env (start p)) ->
  training env cfg l _log s
  = ((spawning (workers cfg l _log)
      ++ map join (until_fails (unjoinable env) (workers cfg l _log))
      ++ flat_map (closing env) (until_fails (unreleasable env) (workers cfg l _log))
      ++ match find (unreleasable env) (workers cfg l _log) with
         | Some _ => []
         | None => [close_thread true]
         end)%list,
     {| threads := workers cfg l _log |},
     match find (unreleasable env) (workers cfg l _log) with
     | Some p => Raise (Raised (terminate p))
     | None =>
         if raises env (close_thread true)
         then Raise (Raised (close_thread true))
         else match find (unjoinable env) (workers cfg l _log) with
              | Some p => Raise (Raised (join p))
              | None => Ret tt
              end
     end).
Proof.
  intros Hmulti Hquiet. unfold training. rewrite reset_bind, Hmulti.
  assert (Hspawn : forall i, In i (range (train_threads cfg)) ->
            quiet env (mp_Process "train" (worker_args cfg l _log i)) /\
            quiet env (start (worker cfg l _log i))).
  { intros i Hi. apply (Hquiet (worker cfg l _log i)).
    unfold workers. now apply in_map. }
  pose proof (spawn_loop (range (train_threads cfg)) [] Hspawn) as Hloop.
  cbn [app] in Hloop. fold (workers cfg l _log) in Hloop.
  unfold try_finally.
  rewrite (bind_returned _ _ _ _ _ _ Hloop).
  rewrite get_bind. cbn [threads]. rewrite join_loop.
  rewrite finally_exact. cbn [threads].
  destruct (find (unreleasable env) (workers cfg l _log)) as [p|].
  - now rewrite <- !app_assoc.
  - destruct (raises env (close_thread true)); now rewrite <- !app_assoc.
Qed.



(** One round of lines 131-134. *)
Lemma spawn_one_inv (i : Z) (s : store)
    (t : list call) (s' : store) (r : outcome exn unit) :
  (let args := worker_args cfg l _log i in
   p <- invoke env (mp_Process "train" args)
               {| target := "train"; args := args |} ;;
   threads_append p ;;
   last <- threads_last ;;
   perform env (start last)) s = (t, s', r) ->
  (t = [mp_Process "train" (worker_args cfg l _log i)] /\ s' = s /\
   exists e, r = Raise e) \/
  (t = [mp_Process "train" (worker_args cfg l _log i); start (worker cfg l _log i)] /\
   s' = {| threads := (threads s ++ [worker cfg l _log i])%list |}).
Proof.
  cbv zeta. intros H. peel H.
  - rewrite append_last_bind in H. apply invoke_inv in H.
    destruct H as (-> & -> & _). now right.
  - left. repeat split. now eexists.
Qed.

(** The first call of [training] that sets a worker going, if there is
    one, is [train] in the parent or the [start] of worker 0 right after
    its creation. *)
Lemma training_first (s : store)
    (t : list call) (s' : store) (r : outcome exn unit) :
  training env cfg l _log s = (t, s', r) ->
  Forall (fun c => starts_worker c = false) t \/
  exists rest,
    t = train (worker_args cfg l _log 0) :: rest \/
    t = mp_Process "train" (worker_args cfg l _log 0)
          :: start (worker cfg l _log 0) :: rest.
Proof.
  intros H. destruct (train_threads cfg >? 1) eqn:Hthreads.
  2:{ rewrite training_single in H by assumption. injection H as <- <- <-.
      right. eexists. now left. }
  destruct (range_positive (train_threads cfg)) as (numbers & Hrange).
  { apply Z.gtb_lt in Hthreads. lia. }
  unfold training in H. rewrite reset_bind, Hthreads, Hrange in H.
  cbn [for_each] in H. apply try_finally_inv in H.
  destruct H as (tb & sb & rb & tc & rc & Hbody & Hfinally & -> & ->).
  assert (Hone : (exists rest, tb = mp_Process "train" (worker_args cfg l _log 0)
                                 :: start (worker cfg l _log 0) :: rest) \/
                 (tb = [mp_Process "train" (worker_args cfg l _log 0)] /\
                  sb = {| threads := [] |})).
  { apply bind_inv in Hbody.
    destruct Hbody as [(t1 & s1 & [] & t2 & H1 & _ & ->) | (e & H1 & _)];
      apply bind_inv in H1;
      destruct H1 as [(ta & sa & [] & tr & Ha & _ & ->) | (e' & Ha & Hr')];
      try discriminate Hr';
      apply spawn_one_inv in Ha;
      destruct Ha as [(-> & -> & e0 & Hr) | (-> & ->)];
      try discriminate Hr;
      solve [ left; eexists; cbn [app]; reflexivity | right; now split ]. }
  destruct Hone as [(rest & ->) | (-> & ->)].
  - right. eexists. right. cbn [app]. reflexivity.
  - left. apply finally_inv in Hfinally. cbn [threads] in Hfinally.
    destruct Hfinally as (_ & j & tail & _ & -> & Htail & _).
    rewrite firstn_nil. cbn [flat_map app].
    destruct Htail as [-> | ->]; now repeat constructor.
Qed.

End Training.

(** ** The whole command *)

(** [embed] runs its three parts in order and stops at the first that
    raises. *)
Lemma embed_inv (env : environment) (cfg : configuration) (_log : run_logger)
    (s : store) (t : list call) (s' : store) (r : outcome exn unit) :
  embed env cfg _log s = (t, s', r) ->
  exists t0 r0,
    prepare env cfg s = (t0, s, r0) /\
    match r0 with
    | Raise e => t = t0 /\ r = Raise e
    | Ret l =>
        exists t1 s1 r1,
          training env cfg l _log s = (t1, s1, r1) /\
          match r1 with
          | Raise e => t = (t0 ++ t1)%list /\ r = Raise e
          | Ret _ =>
              exists t2,
                drain env (log_queue l) _log 0 (queued env) s1 = (t2, s', r) /\
                t = (t0 ++ t1 ++ t2)%list
          end
    end.
Proof.
  unfold embed. intros H. apply bind_inv in H.
  destruct H as [(t0 & s0 & l & t' & H0 & H & ->) | (e & H0 & ->)].
  - pose proof (prepare_inv _ _ _ _ _ _ H0) as (-> & _).
    exists t0, (Ret l). split; [assumption|].
    apply bind_inv in H.
    destruct H as [(t1 & s1 & [] & t2 & H1 & H2 & ->) | (e & H1 & ->)].
    + exists t1, s1, (Ret tt). split; [assumption|]. now exists t2.
    + exists t', s', (Raise e). now split.
  - pose proof (prepare_inv _ _ _ _ _ _ H0) as (-> & _).
    exists t, (Raise e). now split.
Qed.

(** Every call of a run belongs to one of the three parts. *)
Lemma trace_calls (env : environment) (cfg : configuration) (_log : run_logger) :
  Forall (fun c =>
            preparing env cfg c \/
            (exists m, get_embed_manifold (recursion_limit env) cfg None
                       = Ret (Some m) /\
                       (working cfg (locals_on env cfg m) _log c \/
                        emptying {| maxsize := None |} _log c)))
         (trace env cfg _log).
Proof.
  unfold trace, run.
  destruct (embed env cfg _log _) as [[t s'] r] eqn:H. cbn [fst].
  apply embed_inv in H. destruct H as (t0 & r0 & H0 & H).
  apply prepare_inv in H0. destruct H0 as (_ & Hpreparing & Hl).
  assert (Hpre : Forall (fun c => preparing env cfg c \/
                   (exists m, get_embed_manifold (recursion_limit env) cfg None
                              = Ret (Some m) /\
                              (working cfg (locals_on env cfg m) _log c \/
                               emptying {| maxsize := None |} _log c))) t0).
  { eapply Forall_impl; [|exact Hpreparing]. intros c Hc. now left. }
  destruct r0 as [l|e]; [|destruct H as (-> & _); exact Hpre].
  destruct (Hl l eq_refl) as (m & Hm & -> & _ & _).
  destruct H as (t1 & s1 & r1 & H1 & H).
  apply training_working in H1.
  assert (Hwork : Forall (fun c => preparing env cfg c \/
                   (exists m, get_embed_manifold (recursion_limit env) cfg None
                              = Ret (Some m) /\
                              (working cfg (locals_on env cfg m) _log c \/
                               emptying {| maxsize := None |} _log c))) t1).
  { eapply Forall_impl; [|exact H1]. intros c Hc. right. exists m. tauto. }
  destruct r1 as [[]|e].
  - destruct H as (t2 & H2 & ->). apply drain_inv in H2.
    destruct H2 as (_ & H2 & _).
    apply Forall_app. split; [exact Hpre|].
    apply Forall_app. split; [exact Hwork|].
    eapply Forall_impl; [|exact H2]. intros c Hc. right. exists m. tauto.
  - destruct H as (-> & _). apply Forall_app. now split.
Qed.

(** ** The command [embed] *)

Lemma prepare_first (env : environment) (cfg : configuration) (s : store)
    (t : list call) (s' : store) (r : outcome exn locals) :
  prepare env cfg s = (t, s', r) ->
  exists rest, t = load_dataset (burnin_num cfg >? 0) :: rest.
Proof.
  unfold prepare. intros H. peel H; now eexists.
Qed.

Lemma trace_first (env : environment) (cfg : configuration) (_log : run_logger) :
  exists rest, trace env cfg _log = load_dataset (burnin_num cfg >? 0) :: rest.
Proof.
  unfold trace, run.
  destruct (embed env cfg _log _) as [[t s'] r] eqn:H. cbn [fst].
  apply embed_inv in H. destruct H as (t0 & r0 & H0 & H).
  apply prepare_first in H0. destruct H0 as (rest & ->).
  destruct r0 as [l|e].
  - destruct H as (t1 & s1 & r1 & _ & H). destruct r1 as [[]|e].
    + destruct H as (t2 & _ & ->). now eexists.
    + destruct H as (-> & _). now eexists.
  - destruct H as (-> & _). now eexists.
Qed.

(** C7.  The first call of [embed] is [load_dataset] with [burnin] true
    exactly when [burnin_num > 0], and it is the only [load_dataset] call.
    Once the first part of [embed] is done, when [burnin_num > 0] the
    dataset's [neg_multiplier] is [burnin_neg_multiplier] and nothing else
    of the loaded dataset has changed, and when [burnin_num <= 0] the
    dataset is the loaded one, [neg_multiplier] included.  Every later call
    that is given the dataset receives it with that [neg_multiplier]. *)
Theorem burnin_sets_neg_multiplier (env : environment) (cfg : configuration)
    (_log : run_logger) :
  (exists rest, trace env cfg _log = load_dataset (burnin_num cfg >? 0) :: rest) /\
  ((burnin_num cfg >? 0) = true <-> burnin_num cfg > 0) /\
  (forall b, In (load_dataset b) (trace env cfg _log) -> b = (burnin_num cfg >? 0)) /\
  (forall s t s' l,
      prepare env cfg s = (t, s', Ret l) ->
      (burnin_num cfg > 0 ->
       neg_multiplier (data l) = burnin_neg_multiplier cfg /\
       objects (data l) = objects (loaded env true) /\
       data l = set_neg_multiplier (loaded env true) (burnin_neg_multiplier cfg)) /\
      (burnin_num cfg <= 0 ->
       neg_multiplier (data l) = neg_multiplier (loaded env false) /\
       data l = loaded env false)) /\
  (forall c d, In c (trace env cfg _log) ->
     match c with
     | get_adjacency_dict d' => d' = d
     | mp_Process _ a | train a => arg_data a = d
     | _ => False
     end ->
     (burnin_num cfg > 0 ->
      neg_multiplier d = burnin_neg_multiplier cfg /\
      objects d = objects (loaded env true)) /\
     (burnin_num cfg <= 0 -> d = loaded env false)).
Proof.
  assert (Hafter :
    (burnin_num cfg > 0 ->
     neg_multiplier (data_after_load env cfg) = burnin_neg_multiplier cfg /\
     objects (data_after_load env cfg) = objects (loaded env true) /\
     data_after_load env cfg
     = set_neg_multiplier (loaded env true) (burnin_neg_multiplier cfg)) /\
    (burnin_num cfg <= 0 ->
     neg_multiplier (data_after_load env cfg) = neg_multiplier (loaded env false) /\
     data_after_load env cfg = loaded env false)).
  { unfold data_after_load. split; intros Hnum.
    - assert (Hb : (burnin_num cfg >? 0) = true) by (rewrite Z.gtb_ltb, Z.ltb_lt; lia).
      rewrite Hb. now repeat split.
    - assert (Hb : (burnin_num cfg >? 0) = false) by (rewrite Z.gtb_ltb, Z.ltb_ge; lia).
      rewrite Hb. now split. }
  destruct Hafter as (Hburnin & Hplain).
  split; [apply trace_first|].
  split; [rewrite Z.gtb_ltb, Z.ltb_lt; lia|].
  pose proof (trace_calls env cfg _log) as Hcalls. rewrite Forall_forall in Hcalls.
  split; [|split].
  - intros b Hin. destruct (Hcalls _ Hin) as [Hp | (m & _ & [Hw | He])];
      [exact Hp | destruct Hw | destruct He].
  - intros s t s' l H. apply prepare_inv in H. destruct H as (_ & _ & Hl).
    destruct (Hl l eq_refl) as (m & _ & -> & _). cbn [data locals_on].
    split; [exact Hburnin | exact Hplain].
  - intros c d Hin Hgiven.
    assert (Hd : d = data_after_load env cfg).
    { destruct (Hcalls _ Hin) as [Hp | (m & _ & [Hw | He])].
      - destruct c; try contradiction; cbn in Hp; try contradiction.
        now subst.
      - destruct c; try contradiction; cbn in Hw; try contradiction.
        + destruct Hw as (_ & i & ->). now subst.
        + now subst.
      - destruct c; try contradiction; destruct He. }
    subst d. split; intros Hnum.
    + destruct (Hburnin Hnum) as (Hneg & Hobjects & _). now split.
    + now destruct (Hplain Hnum).
Qed.

Lemma burnin_sets_neg_multiplier_witness :
  neg_multiplier (loaded calm true) = PyInt 10 /\
  exists l,
    snd (prepare calm (config defaults noon) {| threads := [] |}) = Ret l /\
    neg_multiplier (data l) = PyFloat "0.1" /\
    objects (data l) = ["a"; "b"; "c"].
Proof.
  split; [reflexivity|].
  eexists. split; [vm_compute; reflexivity|].
  destruct (burnin_sets_neg_multiplier calm (config defaults noon) sacred_log)
    as (_ & _ & _ & Hdata & _).
  destruct (Hdata {| threads := [] |} _ _ _ eq_refl) as (Hburnin & _).
  destruct Hburnin as (Hneg & Hobjects & _); [reflexivity|].
  split; [exact Hneg | exact Hobjects].
Defined.

Lemma preparing_phase (env : environment) (cfg : configuration) (c : call) :
  preparing env cfg c -> phase_of c = Preparing.
Proof. destruct c; cbn; tauto. Qed.

Lemma working_phase (cfg : configuration) (l : locals) (_log : run_logger) (c : call) :
  working cfg l _log c -> phase_of c = Working \/ phase_of c = Cleaning.
Proof. destruct c; cbn; tauto. Qed.

Lemma emptying_phase (q : Queue) (_log : run_logger) (c : call) :
  emptying q _log c -> phase_of c = Draining.
Proof. destruct c; cbn; tauto. Qed.


(** A run whose first part returned goes on to [training], and to the
    draining loop when [training] returns. *)
Lemma run_prepared (env : environment) (cfg : configuration) (_log : run_logger)
    (t0 : list call) (s0 : store) (l : locals) :
  prepare env cfg {| threads := [] |} = (t0, s0, Ret l) ->
  exists t1 s1 r1,
    training env cfg l _log {| threads := [] |} = (t1, s1, r1) /\
    Forall (preparing env cfg) t0 /\
    ((exists e, r1 = Raise e /\ trace env cfg _log = (t0 ++ t1)%list /\
                result env cfg _log = Raise e) \/
     (r1 = Ret tt /\
      exists t2 s2,
        drain env (log_queue l) _log 0 (queued env) s1
        = (t2, s2, result env cfg _log) /\
        trace env cfg _log = (t0 ++ t1 ++ t2)%list)).
Proof.
  intros Hprepare. unfold trace, result, run.
  destruct (embed env cfg _log _) as [[t s'] r] eqn:H. cbn [fst snd].
  apply embed_inv in H. destruct H as (t0' & r0 & H0 & H).
  pose proof (prepare_inv _ _ _ _ _ _ Hprepare) as (-> & Hpreparing & _).
  rewrite Hprepare in H0. injection H0 as <- <-.
  destruct H as (t1 & s1 & r1 & H1 & H). exists t1, s1, r1.
  split; [assumption|]. split; [assumption|].
  destruct r1 as [[]|e].
  - right. destruct H as (t2 & H2 & ->). split; [reflexivity|]. now exists t2, s'.
  - left. destruct H as (-> & ->). now exists e.
Qed.

(** ** The log queue *)

Lemma logged_app (a b : list call) : logged (a ++ b) = (logged a ++ logged b)%list.
Proof. apply flat_map_app. Qed.

Lemma logged_cons (c : call) (t : list call) :
  logged (c :: t)
  = ((match c with log_info _ msg => [msg] | _ => [] end) ++ logged t)%list.
Proof. reflexivity. Qed.


Lemma logged_elsewhere (t : list call) :
  Forall (fun c => phase_of c <> Draining) t -> logged t = [].
Proof.
  induction 1 as [|c t Hc _ IH]; [reflexivity|].
  rewrite logged_cons, IH. destruct c; cbn in *; congruence.
Qed.







(** ** The workers *)







(** The run of the multi-process branch when its first part has returned
    and creating and starting its workers does not raise. *)
Lemma run_multi (env : environment) (cfg : configuration) (_log : run_logger)
    (t0 : list call) (s0 : store) (l : locals) :
  prepare env cfg {| threads := [] |} = (t0, s0, Ret l) ->
  train_threads cfg > 1 ->
  (forall p, In p (workers cfg l _log) ->
     quiet env (mp_Process (target p) (args p)) /\ quiet env (start p)) ->
  exists rest,
    trace env cfg _log
    = (t0 ++ spawning (workers cfg l _log)
          ++ map join (until_fails (unjoinable env) (workers cfg l _log))
          ++ flat_map (closing env)
                      (until_fails (unreleasable env) (workers cfg l _log))
          ++ rest)%list /\
    Forall (preparing env cfg) t0 /\
    Forall (fun c => c = close_thread true \/ phase_of c = Draining) rest.
Proof.
  intros Hprepare Hmany Hquiet.
  destruct (run_prepared env cfg _log _ _ _ Hprepare)
    as (t1 & s1 & r1 & Htraining & Hpreparing & Hrun).
  assert (Hb : (train_threads cfg >? 1) = true) by (rewrite Z.gtb_ltb, Z.ltb_lt; lia).
  rewrite (training_multi env cfg l _log _ Hb Hquiet) in Htraining.
  injection Htraining as <- <- <-.
  assert (Htail : Forall (fun c => c = close_thread true \/ phase_of c = Draining)
                    match find (unreleasable env) (workers cfg l _log) with
                    | Some _ => []
                    | None => [close_thread true]
                    end).
  { destruct (find (unreleasable env) (workers cfg l _log));
      repeat constructor. }
  destruct Hrun as [(e & _ & -> & _) | (_ & t2 & s2 & H2 & ->)].
  - eexists. split; [reflexivity|]. now split.
  - exists (match find (unreleasable env) (workers cfg l _log) with
            | Some _ => []
            | None => [close_thread true]
            end ++ t2)%list.
    split; [now rewrite <- !app_assoc|]. split; [assumption|].
    apply Forall_app. split; [assumption|].
    apply drain_inv in H2. destruct H2 as (_ & H2 & _).
    eapply Forall_impl; [|exact H2].
    intros c Hc. right. now apply emptying_phase in Hc.
Qed.




(** C2, as amended.  In the multi-process branch, with every worker
    spawned: the workers are joined in order, up to and including the first
    whose [join] raises, all of them when no [join] raises; then, whatever
    the joining did, they are closed in order, a process being terminated
    right after its [close] exactly when that [close] raises, up to and
    including the first whose [terminate] raises too, all of them when no
    [terminate] raises on a process whose [close] raised; nothing else
    joins, closes or terminates a process. *)
Theorem workers_joined_then_closed (env : environment) (cfg : configuration)
    (_log : run_logger) (t0 : list call) (s0 : store) (l : locals) :
  prepare env cfg {| threads := [] |} = (t0, s0, Ret l) ->
  train_threads cfg > 1 ->
  let procs := workers cfg l _log in
  (forall p, In p procs ->
     quiet env (mp_Process (target p) (args p)) /\ quiet env (start p)) ->
  let joined := until_fails (fun p => raises env (join p)) procs in
  let closed :=
    until_fails (fun p => raises env (close p) && raises env (terminate p)) procs in
  exists rest,
    trace env cfg _log
    = (t0 ++ spawning procs
          ++ map join joined
          ++ flat_map (fun p => close p :: (if raises env (close p)
                                            then [terminate p] else []))
                      closed
          ++ rest)%list /\
    Forall (fun c => ~ reaps c) (t0 ++ spawning procs ++ rest) /\
    (exists unjoined, procs = (joined ++ unjoined)%list) /\
    (exists unclosed, procs = (closed ++ unclosed)%list) /\
    ((forall p, In p procs -> quiet env (join p)) -> joined = procs) /\
    ((forall p, In p procs -> raises env (close p) = true ->
                quiet env (terminate p)) -> closed = procs).
Proof.
  intros Hprepare Hmany. cbv zeta. intros Hquiet.
  destruct (run_multi env cfg _log _ _ _ Hprepare Hmany Hquiet)
    as (rest & Htrace & Hpreparing & Hrest).
  exists rest. split; [exact Htrace|]. split.
  { apply Forall_app. split.
    { eapply Forall_impl; [|exact Hpreparing]. intros c. destruct c; cbn; tauto. }
    apply Forall_app. split.
    { unfold spawning. apply Forall_flat_map, Forall_forall. intros p _.
      repeat constructor; cbn; tauto. }
    eapply Forall_impl; [|exact Hrest].
    intros c [-> | Hc]; [cbn; tauto|].
    destruct c; cbn in *; try tauto; discriminate Hc. }
  split; [apply until_fails_prefix|]. split; [apply until_fails_prefix|]. split.
  - intros Hjoin. apply until_fails_all. exact Hjoin.
  - intros Hterminate. apply until_fails_all. intros p Hp.
    destruct (raises env (close p)) eqn:Hclose; [|reflexivity].
    exact (Hterminate p Hp Hclose).
Qed.

Lemma workers_joined_then_closed_witness :
  exists t0 l rest,
    let procs := workers (config defaults noon) l sacred_log in
    trace restless (config defaults noon) sacred_log
    = (t0 ++ spawning procs
          ++ map join (firstn 2 procs)
          ++ flat_map (closing restless) procs
          ++ rest)%list /\
    List.length procs = 5%nat /\
    map callee (flat_map (closing restless) procs)
    = ["close"; "terminate"; "close"; "close"; "close"; "terminate"; "close"].
Proof.
  pose proof (workers_joined_then_closed restless (config defaults noon)
                sacred_log) as H.
  specialize (H _ _ _ eq_refl). cbv zeta in H.
  destruct H as (rest & Htrace & _ & _ & _ & _ & Hclosed).
  - reflexivity.
  - intros p _. split; reflexivity.
  - rewrite Hclosed in Htrace.
    + eexists. eexists. exists rest. cbv zeta.
      split; [exact Htrace|]. split; reflexivity.
    + intros p Hin. vm_compute in Hin.
      repeat (destruct Hin as [<- | Hin]; [vm_compute; congruence|]).
      destruct Hin.
Defined.

(** C2 as stated fails.  When no process can be joined, closed or
    terminated, the run of the default configuration starts five workers
    and then joins one, closes one and terminates one: the [join] that
    raises ends the joining and the [terminate] that raises ends the
    [finally] block.  And when the third worker cannot be started, the two
    workers started before it are never joined. *)
Lemma workers_left_unjoined :
  skipn 17 (map callee (trace stuck (config defaults noon) sacred_log))
  = ["mp.Process"; "start"; "mp.Process"; "start"; "mp.Process"; "start";
     "mp.Process"; "start"; "mp.Process"; "start";
     "join"; "close"; "terminate"] /\
  skipn 17 (map callee (trace failing_start (config defaults noon) sacred_log))
  = ["mp.Process"; "start"; "mp.Process"; "start"; "mp.Process"; "start";
     "close"; "terminate"; "close"; "terminate"; "close"; "close_thread"].
Proof. split; reflexivity. Qed.

(** ** Closing the evaluation thread *)




(** ** The initial weights *)

Lemma first_unique {A : Type} (P : A -> bool) (l1 : list A) (x : A) (r1 : list A)
    (l2 : list A) (y : A) (r2 : list A) :
  (l1 ++ x :: r1 = l2 ++ y :: r2)%list ->
  Forall (fun a => P a = false) l1 -> P x = true ->
  Forall (fun a => P a = false) l2 -> P y = true ->
  l1 = l2 /\ x = y /\ r1 = r2.
Proof.
  revert l2. induction l1 as [|a l1 IH]; intros [|b l2] Heq H1 Hx H2 Hy;
    cbn [app] in Heq; injection Heq as Hhd Htl.
  - now subst.
  - subst. inversion H2; subst. congruence.
  - subst. inversion H1; subst. congruence.
  - subst. inversion H1; subst. inversion H2; subst.
    destruct (IH l2 Htl) as (-> & -> & ->); auto.
Qed.

Lemma replay_app {W : Type} (ops : tensor_ops W) (a b : list call) (w : W) :
  replay ops (a ++ b) w = replay ops b (replay ops a w).
Proof. apply fold_left_app. Qed.

(** The calls of lines 87-126 end with the initialisation and the
    projection of the weights, followed by the two calls that build the
    optimizer. *)
Lemma prepare_calls_projection (env : environment) (cfg : configuration)
    (m : manifold) :
  exists pre,
    prepare_calls env cfg m
    = (pre ++ [apply_initialization (model_on env cfg m) (Some m); no_grad_enter;
               projx m (model_on env cfg m); no_grad_exit]
           ++ [parameters (model_on env cfg m);
               RiemannianSGD_new (model_on env cfg m) (learning_rate cfg) (Some m)])%list /\
    forall (W : Type) (ops : tensor_ops W) (w : W),
      replay ops (prepare_calls env cfg m) w
      = projected ops m (initialized ops (Some m) (replay ops pre w)).
Proof.
  exists ([ load_dataset (burnin_num cfg >? 0);
            torch_device (device_name cfg);
            torch_set_num_threads 1;
            mp_Queue None;
            get_adjacency_dict (data_after_load env cfg);
            initialize_eval (adjacency_of (data_after_load env cfg))
                            {| maxsize := None |} (tensorboard_dir cfg);
            ManifoldEmbedding_new (Some m) (num_embeddings (model_on env cfg m))
                                  (dimension cfg) (sparse cfg) ]
          ++ (if train_threads cfg >? 1
              then [mp_set_sharing_strategy "file_system";
                    share_memory (model_on env cfg m)]
              else [])
          ++ [ to (model_on env cfg m) (device_name cfg);
               (if double_precision cfg
                then double (model_on env cfg m)
                else float (model_on env cfg m)) ])%list.
  unfold prepare_calls. split.
  - destruct (train_threads cfg >? 1); reflexivity.
  - intros W ops w.
    destruct (train_threads cfg >? 1), (double_precision cfg); reflexivity.
Qed.

(** C10.  Take the first call of a run that sets a worker going: the
    [start] of a process or [train] in the parent.  Before it, the model
    that worker receives was initialised by [apply_initialization] and then
    projected by [_projx] inside [torch.no_grad()], and no call after the
    projection writes the weights; so, [_projx] producing points of the
    manifold, the weights are on the manifold at that moment. *)
Theorem weights_projected_before_training {W : Type} (ops : tensor_ops W)
    (env : environment) (cfg : configuration) (_log : run_logger)
    (before : list call) (c : call) (after : list call) :
  (forall m w, on_manifold ops m (projected ops m w)) ->
  trace env cfg _log = (before ++ c :: after)%list ->
  starts_worker c = true ->
  Forall (fun c' => starts_worker c' = false) before ->
  exists m model pre post,
    get_embed_manifold (recursion_limit env) cfg None = Ret (Some m) /\
    before = (pre ++ [apply_initialization model (Some m); no_grad_enter;
                      projx m model; no_grad_exit] ++ post)%list /\
    Forall (fun c' => writes_weights c' = false) post /\
    match c with
    | start p => arg_model (args p) = model
    | train a => arg_model a = model
    | _ => False
    end /\
    forall w, on_manifold ops m (replay ops before w).
Proof.
  intros Hprojx Htrace Hc Hbefore.
  unfold trace, run in Htrace.
  destruct (embed env cfg _log _) as [[t s'] r] eqn:H. cbn [fst] in Htrace.
  subst t. apply embed_inv in H. destruct H as (t0 & r0 & H0 & H).
  apply prepare_inv in H0. destruct H0 as (_ & Hpreparing & Hl).
  assert (Ht0 : Forall (fun c' => starts_worker c' = false) t0).
  { eapply Forall_impl; [|exact Hpreparing]. intros c'. destruct c'; cbn; tauto. }
  assert (Habsurd : forall t : list call, (before ++ c :: after)%list = t ->
             Forall (fun c' => starts_worker c' = false) t -> False).
  { intros t <- Ht. apply Forall_app in Ht. destruct Ht as (_ & Ht).
    inversion Ht; subst. congruence. }
  destruct r0 as [l|e]; [|destruct H as (Heq & _); now elim (Habsurd _ Heq)].
  destruct (Hl l eq_refl) as (m & Hm & -> & -> & _).
  destruct H as (t1 & s1 & r1 & H1 & H).
  assert (Hdrain : forall t2 s2 r2,
             drain env (log_queue (locals_on env cfg m)) _log 0 (queued env) s1
             = (t2, s2, r2) ->
             Forall (fun c' => starts_worker c' = false) t2).
  { intros t2 s2 r2 H2. apply drain_inv in H2. destruct H2 as (_ & H2 & _).
    eapply Forall_impl; [|exact H2]. intros c'. destruct c'; cbn; tauto. }
  assert (Hshape : exists rest,
             (before ++ c :: after = prepare_calls env cfg m ++ t1 ++ rest)%list /\
             Forall (fun c' => starts_worker c' = false) rest).
  { destruct r1 as [[]|e].
    - destruct H as (t2 & H2 & ->). exists t2. split; [reflexivity|].
      now apply (Hdrain _ _ _ H2).
    - destruct H as (-> & _). exists []. split; [now rewrite app_nil_r | constructor]. }
  destruct Hshape as (rest & Heq & Hrest).
  apply training_first in H1.
  destruct H1 as [Hnone | (tl & [-> | ->])].
  { elim (Habsurd _ Heq). apply Forall_app. split; [assumption|].
    apply Forall_app. now split. }
  - cbn [app] in Heq.
    destruct (first_unique starts_worker _ _ _ _ _ _ Heq Hbefore Hc Ht0 eq_refl)
      as (-> & -> & _).
    destruct (prepare_calls_projection env cfg m) as (pre & Hsplit & Hreplay).
    exists m, (model_on env cfg m), pre,
      [parameters (model_on env cfg m);
       RiemannianSGD_new (model_on env cfg m) (learning_rate cfg) (Some m)].
    split; [exact Hm|]. split; [exact Hsplit|].
    split; [now repeat constructor|]. split; [reflexivity|].
    intros w. rewrite Hreplay. apply Hprojx.
  - assert (Hpre : Forall (fun c' => starts_worker c' = false)
                     (prepare_calls env cfg m
                      ++ [mp_Process "train" (worker_args cfg (locals_on env cfg m) _log 0)])).
    { apply Forall_app. split; [assumption | now repeat constructor]. }
    assert (Heq' : (before ++ c :: after
                    = (prepare_calls env cfg m
                       ++ [mp_Process "train" (worker_args cfg (locals_on env cfg m) _log 0)])
                      ++ start (worker cfg (locals_on env cfg m) _log 0) :: (tl ++ rest))%list).
    { rewrite Heq, <- app_assoc. reflexivity. }
    destruct (first_unique starts_worker _ _ _ _ _ _ Heq' Hbefore Hc Hpre eq_refl)
      as (-> & -> & _).
    destruct (prepare_calls_projection env cfg m) as (pre & Hsplit & Hreplay).
    exists m, (model_on env cfg m), pre,
      [parameters (model_on env cfg m);
       RiemannianSGD_new (model_on env cfg m) (learning_rate cfg) (Some m);
       mp_Process "train" (worker_args cfg (locals_on env cfg m) _log 0)].
    split; [exact Hm|]. split.
    { rewrite Hsplit, <- !app_assoc. reflexivity. }
    split; [now repeat constructor|]. split; [reflexivity|].
    intros w. rewrite replay_app, Hreplay. apply Hprojx.
Qed.

Lemma weights_projected_before_training_witness :
  exists before c after,
    trace calm (config defaults noon) sacred_log = (before ++ c :: after)%list /\
    starts_worker c = true /\
    -1 <= replay interval_ops before 100 <= 1.
Proof.
  set (t := trace calm (config defaults noon) sacred_log).
  exists (firstn 18 t), (nth 18 t no_grad_enter), (skipn 19 t).
  assert (Hsplit : t = (firstn 18 t ++ nth 18 t no_grad_enter :: skipn 19 t)%list)
    by (vm_compute; reflexivity).
  assert (Hc : starts_worker (nth 18 t no_grad_enter) = true)
    by (vm_compute; reflexivity).
  assert (Hbefore : Forall (fun c' => starts_worker c' = false) (firstn 18 t))
    by (vm_compute; repeat constructor).
  assert (Hprojx : forall (m : manifold) (w : Z),
             on_manifold interval_ops m (projected interval_ops m w))
    by (intros m w; cbn; lia).
  split; [exact Hsplit|]. split; [exact Hc|].
  destruct (weights_projected_before_training interval_ops calm
              (config defaults noon) sacred_log _ _ _ Hprojx Hsplit Hc Hbefore)
    as (m & model & pre & post & _ & _ & _ & _ & Hon).
  exact (Hon 100).
Defined.

(** * Further properties *)

(** ** Runs that never train *)

(** X1.  Without a manifold there is no training: when [get_embed_manifold]
    does not return a manifold ([None] for an unknown name, or no return at
    all), every call of the run belongs to lines 87-126, so no worker is
    created or started and [close_thread] is not called, and the run ends
    with an exception. *)
Theorem no_manifold_no_training (env : environment) (cfg : configuration)
    (_log : run_logger) :
  (forall m, get_embed_manifold (recursion_limit env) cfg None <> Ret (Some m)) ->
  Forall (fun c => phase_of c = Preparing) (trace env cfg _log) /\
  exists e, result env cfg _log = Raise e.
Proof.
  intros Hnone. unfold trace, result, run.
  destruct (embed env cfg _log _) as [[t s'] r] eqn:H. cbn [fst snd].
  apply embed_inv in H. destruct H as (t0 & r0 & H0 & H).
  apply prepare_inv in H0. destruct H0 as (_ & Hpreparing & Hl).
  destruct r0 as [l|e].
  - destruct (Hl l eq_refl) as (m & Hm & _). now elim (Hnone m).
  - destruct H as (-> & ->). split; [|now exists e].
    eapply Forall_impl; [|exact Hpreparing]. apply preparing_phase.
Qed.

Lemma no_manifold_no_training_witness :
  Forall (fun c => phase_of c = Preparing)
         (trace calm (config torus noon) sacred_log) /\
  exists e, result calm (config torus noon) sacred_log = Raise e.
Proof.
  apply (no_manifold_no_training calm (config torus noon) sacred_log).
  intros m. vm_compute. discriminate.
Defined.

(** ** Reading the queue back *)

Lemma training_returns_closed (env : environment) (cfg : configuration)
    (l : locals) (_log : run_logger) (s : store) (t : list call) (s' : store) :
  training env cfg l _log s = (t, s', Ret tt) ->
  exists body, t = (body ++ [close_thread true])%list.
Proof.
  intros H. destruct (train_threads cfg >? 1) eqn:Hthreads.
  - unfold training in H. rewrite reset_bind, Hthreads in H.
    apply try_finally_inv in H.
    destruct H as (tb & sb & rb & tc & rc & _ & Hfinally & -> & Hr).
    apply finally_inv in Hfinally.
    destruct Hfinally as (_ & j & tail & _ & -> & Htail & Hnil & _).
    destruct Htail as [-> | ->].
    + destruct (Hnil eq_refl) as (e & ->). discriminate Hr.
    + eexists. rewrite !app_assoc. reflexivity.
  - rewrite training_single in H by assumption. injection H as <- _ _.
    now exists [train (worker_args cfg l _log 0)].
Qed.

Lemma split_after {A : Type} (P : A -> Prop) (X Y a b : list A) (c : A) :
  Forall (fun x => ~ P x) X -> P c ->
  (a ++ c :: b = X ++ Y)%list ->
  exists tail, a = (X ++ tail)%list.
Proof.
  revert a. induction X as [|x X IH]; intros a HX Hc Heq.
  - now exists a.
  - inversion HX as [|? ? Hx HX']; subst. destruct a as [|a0 a].
    + cbn [app] in Heq. injection Heq as -> _. contradiction.
    + cbn [app] in Heq. injection Heq as -> Heq.
      destruct (IH a HX' Hc Heq) as (tail & ->). now exists tail.
Qed.

(** X2.  The queue is read back only after the evaluation thread was closed:
    in every run, whatever raises, each [empty], [get] and [info] call of
    the draining loop comes after a call of [close_thread]. *)
Theorem queue_read_after_close_thread (env : environment) (cfg : configuration)
    (_log : run_logger) (before : list call) (c : call) (after : list call) :
  trace env cfg _log = (before ++ c :: after)%list ->
  phase_of c = Draining ->
  In (close_thread true) before.
Proof.
  unfold trace, run.
  destruct (embed env cfg _log _) as [[t s'] r] eqn:H. cbn [fst].
  intros -> Hc. apply embed_inv in H. destruct H as (t0 & r0 & H0 & H).
  apply prepare_inv in H0. destruct H0 as (_ & Hpreparing & _).
  assert (Ht0 : Forall (fun x => ~ phase_of x = Draining) t0).
  { eapply Forall_impl; [|exact Hpreparing].
    intros x Hx. rewrite (preparing_phase _ _ _ Hx). discriminate. }
  assert (Habsurd : forall t : list call,
             (before ++ c :: after)%list = t ->
             Forall (fun x => ~ phase_of x = Draining) t -> False).
  { intros t <- Ht. apply Forall_app in Ht. destruct Ht as (_ & Ht).
    inversion Ht; subst. contradiction. }
  destruct r0 as [l|e]; [|destruct H as (Heq & _); now elim (Habsurd _ Heq)].
  destruct H as (t1 & s1 & r1 & H1 & H).
  assert (Ht1 : Forall (fun x => ~ phase_of x = Draining) t1).
  { pose proof (training_working _ _ _ _ _ _ _ _ H1) as Hw.
    eapply Forall_impl; [|exact Hw].
    intros x Hx. destruct (working_phase _ _ _ _ Hx) as [-> | ->]; discriminate. }
  destruct r1 as [[]|e].
  - destruct H as (t2 & _ & Heq).
    apply training_returns_closed in H1. destruct H1 as (body & ->).
    rewrite app_assoc in Heq.
    destruct (split_after (fun x => phase_of x = Draining) _ _ _ _ _
                (proj2 (Forall_app _ _ _) (conj Ht0 Ht1)) Hc Heq) as (tail & ->).
    rewrite !in_app_iff. left. right. right. now left.
  - destruct H as (Heq & _). elim (Habsurd _ Heq). apply Forall_app. now split.
Qed.

Lemma queue_read_after_close_thread_witness :
  exists before after,
    trace calm (config defaults noon) sacred_log
    = (before ++ queue_empty {| maxsize := None |} :: after)%list /\
    In (close_thread true) before.
Proof.
  set (t := trace calm (config defaults noon) sacred_log).
  assert (Hsplit : t = (firstn 38 t ++ queue_empty {| maxsize := None |}
                                  :: skipn 39 t)%list)
    by (vm_compute; reflexivity).
  exists (firstn 38 t), (skipn 39 t). split; [exact Hsplit|].
  exact (queue_read_after_close_thread calm (config defaults noon) sacred_log
           _ _ _ Hsplit eq_refl).
Defined.

(** ** Failures of the single worker *)

(** X3.  With a single worker, an exception of [train] leaves [embed] after
    [close_thread] was called, unless [close_thread] raises too: then its
    exception is the one [embed] ends with.  In both cases the log queue is
    not read, so the messages waiting on it are not logged. *)
Theorem single_worker_failure (env : environment) (cfg : configuration)
    (_log : run_logger) (t0 : list call) (s0 : store) (l : locals) :
  prepare env cfg {| threads := [] |} = (t0, s0, Ret l) ->
  train_threads cfg <= 1 ->
  raises env (train (worker_args cfg l _log 0)) = true
  \/ raises env (close_thread true) = true ->
  trace env cfg _log
  = (t0 ++ [train (worker_args cfg l _log 0); close_thread true])%list /\
  logged (trace env cfg _log) = [] /\
  result env cfg _log
  = Raise (Raised (if raises env (close_thread true)
                   then close_thread true
                   else train (worker_args cfg l _log 0))).
Proof.
  intros Hprepare Hone Hloud.
  destruct (run_prepared env cfg _log _ _ _ Hprepare)
    as (t1 & s1 & r1 & Htraining & Hpreparing & Hrun).
  assert (Hb : (train_threads cfg >? 1) = false) by (rewrite Z.gtb_ltb, Z.ltb_ge; lia).
  rewrite training_single in Htraining by assumption.
  injection Htraining as <- <- <-.
  assert (Hraised :
            (if raises env (close_thread true)
             then Raise (Raised (close_thread true))
             else if raises env (train (worker_args cfg l _log 0))
                  then Raise (Raised (train (worker_args cfg l _log 0)))
                  else Ret tt)
            = @Raise exn unit
                (Raised (if raises env (close_thread true)
                         then close_thread true
                         else train (worker_args cfg l _log 0)))).
  { destruct (raises env (close_thread true)); [reflexivity|].
    destruct Hloud as [-> | [=]]. reflexivity. }
  rewrite Hraised in Hrun.
  destruct Hrun as [(e & He & Htrace & Hresult) | (Habsurd & _)];
    [|discriminate Habsurd].
  injection He as <-.
  split; [exact Htrace|]. split; [|exact Hresult].
  rewrite Htrace. apply logged_elsewhere. apply Forall_app. split.
  - eapply Forall_impl; [|exact Hpreparing].
    intros c Hc. rewrite (preparing_phase _ _ _ Hc). discriminate.
  - repeat constructor; discriminate.
Qed.

Lemma single_worker_failure_witness :
  logged (trace failing_train (config plain noon) sacred_log) = [] /\
  exists a, result failing_train (config plain noon) sacred_log
            = Raise (Raised (train a)).
Proof.
  pose proof (single_worker_failure failing_train (config plain noon) sacred_log) as H.
  specialize (H _ _ _ eq_refl). destruct H as (_ & Hlogged & Hresult).
  - cbn. lia.
  - left. reflexivity.
  - split; [exact Hlogged|]. eexists. exact Hresult.
Defined.

(** ** Failures while spawning *)

Section Spawning.

Variable env : environment.
Variable cfg : configuration.
Variable l : locals.
Variable _log : run_logger.

(** One round of lines 131-134, by what raised. *)
Lemma spawn_one_cases (i : Z) (s : store)
    (t : list call) (s' : store) (r : outcome exn unit) :
  (let args := worker_args cfg l _log i in
   p <- invoke env (mp_Process "train" args)
               {| target := "train"; args := args |} ;;
   threads_append p ;;
   last <- threads_last ;;
   perform env (start last)) s = (t, s', r) ->
  (raises env (mp_Process "train" (worker_args cfg l _log i)) = true /\
   t = [mp_Process "train" (worker_args cfg l _log i)] /\ s' = s /\
   r = Raise (Raised (mp_Process "train" (worker_args cfg l _log i)))) \/
  (raises env (mp_Process "train" (worker_args cfg l _log i)) = false /\
   t = [mp_Process "train" (worker_args cfg l _log i); start (worker cfg l _log i)] /\
   s' = {| threads := (threads s ++ [worker cfg l _log i])%list |} /\
   r = if raises env (start (worker cfg l _log i))
       then Raise (Raised (start (worker cfg l _log i))) else Ret tt).
Proof.
  cbv zeta. intros H. apply bind_inv in H.
  destruct H as [(t1 & s1 & p & t2 & Hm & H & ->) | (e & Hm & ->)];
    apply invoke_inv in Hm; destruct Hm as (-> & -> & [(Hq & Hm) | (Hl & Hm)]);
    try discriminate Hm.
  - right. injection Hm as ->.
    rewrite append_last_bind in H. apply invoke_inv in H.
    destruct H as (-> & -> & Hr). split; [assumption|].
    split; [reflexivity|]. split; [reflexivity|].
    fold (worker cfg l _log i) in *.
    now destruct Hr as [(-> & ->) | (-> & ->)].
  - left. injection Hm as ->. now repeat split.
Qed.

(** The loop of lines 131-134 when the worker numbered [x] is the first
    that cannot be created or started: the workers before it are created
    and started; it is created, and kept in [threads] if the creation
    returned; nothing follows. *)
Lemma spawn_loop_fails (before : list Z) (x : Z) (later : list Z)
    (ths : list Process) (t : list call) (s' : store) (r : outcome exn unit) :
  (forall i, In i before ->
             quiet env (mp_Process "train" (worker_args cfg l _log i)) /\
             quiet env (start (worker cfg l _log i))) ->
  raises env (mp_Process "train" (worker_args cfg l _log x)) = true \/
  raises env (start (worker cfg l _log x)) = true ->
  for_each (before ++ x :: later) (fun i =>
    let args := worker_args cfg l _log i in
    p <- invoke env (mp_Process "train" args)
                {| target := "train"; args := args |} ;;
    threads_append p ;;
    last <- threads_last ;;
    perform env (start last)) {| threads := ths |}
  = (t, s', r) ->
  if raises env (mp_Process "train" (worker_args cfg l _log x))
  then t = (spawning (map (worker cfg l _log) before)
            ++ [mp_Process "train" (worker_args cfg l _log x)])%list /\
       s' = {| threads := (ths ++ map (worker cfg l _log) before)%list |} /\
       r = Raise (Raised (mp_Process "train" (worker_args cfg l _log x)))
  else t = spawning (map (worker cfg l _log) (before ++ [x])) /\
       s' = {| threads := (ths ++ map (worker cfg l _log) (before ++ [x]))%list |} /\
       r = Raise (Raised (start (worker cfg l _log x))).
Proof.
  intros Hbefore Hloud. revert ths t s' r.
  induction before as [|i before IH]; intros ths t s' r H;
    cbn [app for_each] in H; apply bind_inv in H.
  - destruct H as [(t1 & s1 & u & t2 & H1 & _ & _) | (e & H1 & ->)];
      apply spawn_one_cases in H1;
      destruct H1 as [(Hc & -> & -> & Hr) | (Hc & -> & -> & Hr)];
      rewrite Hc in *; try discriminate Hr.
    + destruct Hloud as [[=] | Hs]. rewrite Hs in Hr. discriminate Hr.
    + injection Hr as <-. cbn [map app spawning flat_map]. now rewrite app_nil_r.
    + destruct Hloud as [[=] | Hs]. rewrite Hs in Hr. injection Hr as <-.
      cbn [map app spawning flat_map threads]. now repeat split.
  - assert (Hi : quiet env (mp_Process "train" (worker_args cfg l _log i)) /\
                 quiet env (start (worker cfg l _log i)))
      by (apply Hbefore; now left).
    destruct Hi as (Hcreate & Hstart). unfold quiet in Hcreate, Hstart.
    assert (IH' := IH (fun j Hj => Hbefore j (or_intror Hj))). clear IH.
    destruct H as [(t1 & s1 & u & t2 & H1 & H2 & ->) | (e & H1 & _)];
      apply spawn_one_cases in H1;
      destruct H1 as [(Hc & _) | (_ & -> & -> & Hr)];
      try congruence; rewrite Hstart in Hr; try discriminate Hr.
    cbn [threads] in H2. apply IH' in H2.
    destruct (raises env (mp_Process "train" (worker_args cfg l _log x)));
      destruct H2 as (-> & -> & ->); cbn [map app];
      (split; [|split; [|reflexivity]]).
    + cbn [spawning flat_map app]. reflexivity.
    + now rewrite <- app_assoc.
    + cbn [spawning flat_map app]. reflexivity.
    + now rewrite <- app_assoc.
Qed.

End Spawning.

(** The multi-process branch when worker [x] is the first that cannot be
    created or started, and no [terminate] raises. *)
Lemma spawn_failure (env : environment) (cfg : configuration)
    (_log : run_logger) (t0 : list call) (s0 : store) (l : locals)
    (before : list Z) (x : Z) (later : list Z) :
  prepare env cfg {| threads := [] |} = (t0, s0, Ret l) ->
  train_threads cfg > 1 ->
  range (train_threads cfg) = (before ++ x :: later)%list ->
  (forall i, In i before ->
             quiet env (mp_Process "train" (worker_args cfg l _log i)) /\
             quiet env (start (worker cfg l _log i))) ->
  raises env (mp_Process "train" (worker_args cfg l _log x)) = true \/
  raises env (start (worker cfg l _log x)) = true ->
  (forall p, quiet env (terminate p)) ->
  exists attempts reached failed,
    (if raises env (mp_Process "train" (worker_args cfg l _log x))
     then attempts = (spawning (map (worker cfg l _log) before)
                      ++ [mp_Process "train" (worker_args cfg l _log x)])%list /\
          reached = map (worker cfg l _log) before /\
          failed = mp_Process "train" (worker_args cfg l _log x)
     else attempts = spawning (map (worker cfg l _log) (before ++ [x])) /\
          reached = map (worker cfg l _log) (before ++ [x]) /\
          failed = start (worker cfg l _log x)) /\
    trace env cfg _log
    = (t0 ++ attempts ++ flat_map (closing env) reached ++ [close_thread true])%list /\
    result env cfg _log
    = Raise (Raised (if raises env (close_thread true)
                     then close_thread true else failed)).
Proof.
  intros Hprepare Hmany Hrange Hbefore Hloud Hterminate.
  destruct (run_prepared env cfg _log _ _ _ Hprepare)
    as (t1 & s1 & r1 & Htraining & _ & Hrun).
  assert (Hb : (train_threads cfg >? 1) = true) by (rewrite Z.gtb_ltb, Z.ltb_lt; lia).
  unfold training in Htraining. rewrite reset_bind, Hb, Hrange in Htraining.
  apply try_finally_inv in Htraining.
  destruct Htraining as (tb & sb & rb & tc & rc & Hbody & Hfinally & -> & ->).
  apply bind_inv in Hbody.
  assert (Hspawned :
    exists e, rb = Raise e /\
      if raises env (mp_Process "train" (worker_args cfg l _log x))
      then tb = (spawning (map (worker cfg l _log) before)
                 ++ [mp_Process "train" (worker_args cfg l _log x)])%list /\
           sb = {| threads := map (worker cfg l _log) before |} /\
           e = Raised (mp_Process "train" (worker_args cfg l _log x))
      else tb = spawning (map (worker cfg l _log) (before ++ [x])) /\
           sb = {| threads := map (worker cfg l _log) (before ++ [x]) |} /\
           e = Raised (start (worker cfg l _log x))).
  { destruct Hbody as [(t1 & s1' & u & t2 & H1 & _ & _) | (e & H1 & ->)];
      apply (spawn_loop_fails env cfg l _log _ _ _ _ _ _ _ Hbefore Hloud) in H1;
      destruct (raises env (mp_Process "train" (worker_args cfg l _log x)));
      destruct H1 as (-> & -> & Hr); try discriminate Hr;
      injection Hr as ->; eexists; (split; [reflexivity|]); now repeat split. }
  destruct Hspawned as (e & -> & Hspawned).
  apply finally_inv in Hfinally.
  destruct Hfinally as (-> & j & tail & _ & -> & _ & _ & _ & Hreleased).
  destruct Hreleased as (-> & -> & ->); [intros p _; apply Hterminate|].
  rewrite firstn_all in Hrun.
  assert (Hresult :
    forall failed, e = Raised failed ->
      result env cfg _log
      = Raise (Raised (if raises env (close_thread true)
                       then close_thread true else failed)) /\
      trace env cfg _log
      = (t0 ++ tb ++ flat_map (closing env) (threads sb) ++ [close_thread true])%list).
  { intros failed ->.
    destruct (raises env (close_thread true));
      destruct Hrun as [(e' & He & -> & ->) | ([=] & _)];
      injection He as <-; rewrite <- ?app_assoc; now split. }
  destruct (raises env (mp_Process "train" (worker_args cfg l _log x)));
    destruct Hspawned as (-> & -> & He);
    destruct (Hresult _ He) as (-> & ->); cbn [threads];
    do 3 eexists; (split; [now repeat split|]); now split.
Qed.

(** X4.  A worker that cannot be started stops the spawning, and nothing is
    joined: the workers before it and the one that failed to start are
    closed (terminated where [close] raises), [close_thread] is called,
    and [embed] ends with the exception of [start], or with that of
    [close_thread] if it raises too.  The workers after it are never
    created. *)
Theorem start_failure_closes_all (env : environment) (cfg : configuration)
    (_log : run_logger) (t0 : list call) (s0 : store) (l : locals)
    (before : list Z) (x : Z) (later : list Z) :
  prepare env cfg {| threads := [] |} = (t0, s0, Ret l) ->
  train_threads cfg > 1 ->
  range (train_threads cfg) = (before ++ x :: later)%list ->
  (forall i, In i before ->
             quiet env (mp_Process "train" (worker_args cfg l _log i)) /\
             quiet env (start (worker cfg l _log i))) ->
  quiet env (mp_Process "train" (worker_args cfg l _log x)) ->
  raises env (start (worker cfg l _log x)) = true ->
  (forall p, quiet env (terminate p)) ->
  trace env cfg _log
  = (t0 ++ spawning (map (worker cfg l _log) (before ++ [x]))
        ++ flat_map (closing env) (map (worker cfg l _log) (before ++ [x]))
        ++ [close_thread true])%list /\
  result env cfg _log
  = Raise (Raised (if raises env (close_thread true)
                   then close_thread true
                   else start (worker cfg l _log x))).
Proof.
  intros Hprepare Hmany Hrange Hbefore Hcreate Hstart Hterminate.
  destruct (spawn_failure env cfg _log _ _ _ _ _ _ Hprepare Hmany Hrange Hbefore
              (or_intror Hstart) Hterminate)
    as (attempts & reached & failed & Hcase & Htrace & Hresult).
  unfold quiet in Hcreate. rewrite Hcreate in Hcase.
  destruct Hcase as (-> & -> & ->). now split.
Qed.

Lemma start_failure_closes_all_witness :
  exists t0 l,
    trace failing_start (config defaults noon) sacred_log
    = (t0 ++ spawning (map (worker (config defaults noon) l sacred_log) [0; 1; 2])
          ++ flat_map (closing failing_start)
                      (map (worker (config defaults noon) l sacred_log) [0; 1; 2])
          ++ [close_thread true])%list /\
    result failing_start (config defaults noon) sacred_log
    = Raise (Raised (start (worker (config defaults noon) l sacred_log 2))).
Proof.
  pose proof (start_failure_closes_all failing_start (config defaults noon)
                sacred_log) as H.
  specialize (H _ _ _ [0; 1] 2 [3; 4] eq_refl).
  do 2 eexists. apply H.
  - reflexivity.
  - reflexivity.
  - intros i [<- | [<- | []]]; split; reflexivity.
  - reflexivity.
  - reflexivity.
  - intros p. reflexivity.
Defined.

(** X5.  A worker that cannot be created stops the spawning, and nothing is
    joined: only the workers created before it are closed (terminated
    where [close] raises), [close_thread] is called, and [embed] ends with
    the exception of the creation, or with that of [close_thread] if it
    raises too. *)
Theorem create_failure_closes_started (env : environment) (cfg : configuration)
    (_log : run_logger) (t0 : list call) (s0 : store) (l : locals)
    (before : list Z) (x : Z) (later : list Z) :
  prepare env cfg {| threads := [] |} = (t0, s0, Ret l) ->
  train_threads cfg > 1 ->
  range (train_threads cfg) = (before ++ x :: later)%list ->
  (forall i, In i before ->
             quiet env (mp_Process "train" (worker_args cfg l _log i)) /\
             quiet env (start (worker cfg l _log i))) ->
  raises env (mp_Process "train" (worker_args cfg l _log x)) = true ->
  (forall p, quiet env (terminate p)) ->
  trace env cfg _log
  = (t0 ++ (spawning (map (worker cfg l _log) before)
            ++ [mp_Process "train" (worker_args cfg l _log x)])
        ++ flat_map (closing env) (map (worker cfg l _log) before)
        ++ [close_thread true])%list /\
  result env cfg _log
  = Raise (Raised (if raises env (close_thread true)
                   then close_thread true
                   else mp_Process "train" (worker_args cfg l _log x))).
Proof.
  intros Hprepare Hmany Hrange Hbefore Hcreate Hterminate.
  destruct (spawn_failure env cfg _log _ _ _ _ _ _ Hprepare Hmany Hrange Hbefore
              (or_introl Hcreate) Hterminate)
    as (attempts & reached & failed & Hcase & Htrace & Hresult).
  rewrite Hcreate in Hcase.
  destruct Hcase as (-> & -> & ->). now split.
Qed.

Lemma create_failure_closes_started_witness :
  exists t0 l,
    trace failing_create (config defaults noon) sacred_log
    = (t0 ++ (spawning (map (worker (config defaults noon) l sacred_log) [0; 1])
              ++ [mp_Process "train"
                    (worker_args (config defaults noon) l sacred_log 2)])
          ++ flat_map (closing failing_create)
                      (map (worker (config defaults noon) l sacred_log) [0; 1])
          ++ [close_thread true])%list.
Proof.
  pose proof (create_failure_closes_started failing_create (config defaults noon)
                sacred_log) as H.
  specialize (H _ _ _ [0; 1] 2 [3; 4] eq_refl).
  do 2 eexists. apply H.
  - reflexivity.
  - reflexivity.
  - intros i [<- | [<- | []]]; split; reflexivity.
  - reflexivity.
  - intros p. reflexivity.
Defined.

(** ** Sharing and precision *)

(** X7.  Once the first part of [embed] has returned, the run follows the
    configuration and nothing else: with a single worker the sharing
    strategy is never set and [share_memory] is never called; the model is
    converted by [double] and never by [float] when [double_precision] is
    true, and by [float] and never by [double] when it is false. *)
Theorem sharing_and_precision_follow_config (env : environment)
    (cfg : configuration) (_log : run_logger)
    (t0 : list call) (s0 : store) (l : locals) :
  prepare env cfg {| threads := [] |} = (t0, s0, Ret l) ->
  (train_threads cfg <= 1 ->
   forall c, In c (trace env cfg _log) ->
     match c with
     | mp_set_sharing_strategy _ | share_memory _ => False
     | _ => True
     end) /\
  (double_precision cfg = true ->
   In (double (model l)) (trace env cfg _log) /\
   forall mdl, ~ In (float mdl) (trace env cfg _log)) /\
  (double_precision cfg = false ->
   In (float (model l)) (trace env cfg _log) /\
   forall mdl, ~ In (double mdl) (trace env cfg _log)).
Proof.
  intros Hprepare.
  destruct (run_prepared env cfg _log _ _ _ Hprepare)
    as (t1 & s1 & r1 & Htraining & _ & Hrun).
  apply training_working in Htraining.
  apply prepare_inv in Hprepare. destruct Hprepare as (_ & _ & Hl).
  destruct (Hl l eq_refl) as (m & _ & -> & -> & _).
  assert (Hphase : forall c, In c (trace env cfg _log) ->
             In c (prepare_calls env cfg m) \/ phase_of c <> Preparing).
  { intros c Hin. rewrite Forall_forall in Htraining.
    destruct Hrun as [(e & _ & Htrace & _) | (_ & t2 & s2 & H2 & Htrace)];
      rewrite Htrace in Hin; rewrite !in_app_iff in Hin.
    - destruct Hin as [Hin | Hin]; [now left | right].
      destruct (working_phase _ _ _ _ (Htraining _ Hin)) as [-> | ->]; discriminate.
    - destruct Hin as [Hin | [Hin | Hin]]; [now left | right | right].
      + destruct (working_phase _ _ _ _ (Htraining _ Hin)) as [-> | ->]; discriminate.
      + apply drain_inv in H2. destruct H2 as (_ & H2 & _).
        rewrite Forall_forall in H2.
        rewrite (emptying_phase _ _ _ (H2 _ Hin)). discriminate. }
  assert (Hhere : forall c, In c (prepare_calls env cfg m) ->
                            In c (trace env cfg _log)).
  { intros c Hin.
    destruct Hrun as [(e & _ & -> & _) | (_ & t2 & s2 & _ & ->)];
      rewrite in_app_iff; now left. }
  cbn [model locals_on]. split; [|split].
  - intros Hone c Hin.
    assert (Hb : (train_threads cfg >? 1) = false) by (rewrite Z.gtb_ltb, Z.ltb_ge; lia).
    destruct (Hphase c Hin) as [Hc | Hc].
    + unfold prepare_calls in Hc. rewrite Hb in Hc. cbn [app] in Hc.
      cbn [In] in Hc.
      destruct (double_precision cfg);
        repeat (destruct Hc as [<- | Hc]; [exact I|]); destruct Hc.
    + destruct c; try exact I; now elim Hc.
  - intros Hdouble. split.
    + apply Hhere. unfold prepare_calls. rewrite Hdouble.
      rewrite !in_app_iff. right. right. cbn. tauto.
    + intros mdl Hin. destruct (Hphase _ Hin) as [Hc | Hc]; [|now elim Hc].
      unfold prepare_calls in Hc. rewrite Hdouble in Hc.
      destruct (train_threads cfg >? 1); cbn [app In] in Hc;
        repeat (destruct Hc as [Hc | Hc]; [discriminate Hc|]); destruct Hc.
  - intros Hfloat. split.
    + apply Hhere. unfold prepare_calls. rewrite Hfloat.
      rewrite !in_app_iff. right. right. cbn. tauto.
    + intros mdl Hin. destruct (Hphase _ Hin) as [Hc | Hc]; [|now elim Hc].
      unfold prepare_calls in Hc. rewrite Hfloat in Hc.
      destruct (train_threads cfg >? 1); cbn [app In] in Hc;
        repeat (destruct Hc as [Hc | Hc]; [discriminate Hc|]); destruct Hc.
Qed.

Lemma sharing_and_precision_follow_config_witness :
  exists l,
    In (float (model l)) (trace calm (config plain noon) sacred_log) /\
    forall mdl, ~ In (double mdl) (trace calm (config plain noon) sacred_log).
Proof.
  pose proof (sharing_and_precision_follow_config calm (config plain noon)
                sacred_log) as H.
  specialize (H _ _ _ eq_refl). destruct H as (_ & _ & Hfloat).
  eexists. apply Hfloat. reflexivity.
Defined.

(** ** A logger that raises *)

(** One round of lines 154-156 when the queue itself does not raise and
    [empty()] answers [False]. *)
Lemma drain_step (env : environment) (q : Queue) (_log : run_logger)
    (msg : string) (rest : list string) (read : nat) (s : store)
    (t : list call) (s' : store) (r : outcome exn unit) :
  quiet env (queue_empty q) -> quiet env (queue_get q) ->
  says_empty env read = false ->
  drain env q _log read (msg :: rest) s = (t, s', r) ->
  (raises env (log_info _log msg) = true /\
   t = [queue_empty q; queue_get q; log_info _log msg] /\
   r = Raise (Raised (log_info _log msg))) \/
  (raises env (log_info _log msg) = false /\
   exists t', drain env q _log (S read) rest s = (t', s', r) /\
              t = ([queue_empty q; queue_get q; log_info _log msg] ++ t')%list).
Proof.
  unfold quiet. intros Hempty Hget Hsays H. cbn [drain empty_answer] in H.
  unfold perform in H.
  rewrite Hsays in H.
  apply bind_inv in H.
  destruct H as [(ta & sa & u & tb & Ha & H & ->) | (e & Ha & _)];
    apply invoke_inv in Ha; destruct Ha as (-> & -> & [(_ & Hr0) | (Hl & _)]);
    try discriminate Hr0; try congruence.
  injection Hr0 as ->.
  apply bind_inv in H.
  destruct H as [(tc & sc & got & td & Hc & H & ->) | (e & Hc & _)];
    apply invoke_inv in Hc; destruct Hc as (-> & -> & [(_ & Hgot) | (Hl & _)]);
    try discriminate Hgot; try congruence.
  injection Hgot as ->. apply bind_inv in H.
  destruct H as [(te & se & u' & tf & He & H & ->) | (e & He & ->)];
    apply invoke_inv in He; destruct He as (-> & -> & [(Hq & Hr) | (Hl & Hr)]);
    try discriminate Hr.
  - right. split; [assumption|]. now exists tf.
  - left. injection Hr as ->. now repeat split.
Qed.

(** X8.  When the logger raises on a message the loop has come to
    ([empty()] having answered [False] up to it), the draining loop stops
    there: the messages before it were logged, the message itself was read
    off the queue and handed to the logger, the messages after it are
    neither read nor logged, and [embed] ends with the logger's
    exception. *)
Theorem logger_failure_drops_messages (env : environment) (cfg : configuration)
    (_log : run_logger) (t0 : list call) (s0 : store) (l : locals)
    (t1 : list call) (s1 : store)
    (before : list string) (msg : string) (after : list string) :
  prepare env cfg {| threads := [] |} = (t0, s0, Ret l) ->
  training env cfg l _log {| threads := [] |} = (t1, s1, Ret tt) ->
  queued env = (before ++ msg :: after)%list ->
  (forall i, (i <= List.length before)%nat -> says_empty env i = false) ->
  quiet env (queue_empty (log_queue l)) ->
  quiet env (queue_get (log_queue l)) ->
  (forall m, In m before -> quiet env (log_info _log m)) ->
  raises env (log_info _log msg) = true ->
  trace env cfg _log
  = (t0 ++ t1
        ++ flat_map (fun m => [queue_empty (log_queue l); queue_get (log_queue l);
                               log_info _log m]) (before ++ [msg]))%list /\
  logged (trace env cfg _log) = (before ++ [msg])%list /\
  result env cfg _log = Raise (Raised (log_info _log msg)).
Proof.
  intros Hprepare Htraining Hqueued Hsays Hempty Hget Hbefore Hloud.
  destruct (run_prepared env cfg _log _ _ _ Hprepare)
    as (t1' & s1' & r1 & Htraining' & Hpreparing & Hrun).
  rewrite Htraining in Htraining'. injection Htraining' as <- <- <-.
  destruct Hrun as [(e & [=] & _) | (_ & t2 & s2 & H2 & Htrace)].
  rewrite Hqueued in H2.
  assert (Hdrain : forall ms read s t s' r,
             (forall m, In m ms -> quiet env (log_info _log m)) ->
             (forall i, (i <= List.length ms)%nat ->
                        says_empty env (read + i)%nat = false) ->
             drain env (log_queue l) _log read (ms ++ msg :: after) s = (t, s', r) ->
             t = flat_map (fun m => [queue_empty (log_queue l);
                                     queue_get (log_queue l); log_info _log m])
                          (ms ++ [msg]) /\
             r = Raise (Raised (log_info _log msg))).
  { induction ms as [|m ms IH]; intros read s t s' r Hms Hread H; cbn [app] in H;
      apply drain_step in H; try assumption;
      try (specialize (Hread 0%nat); rewrite Nat.add_0_r in Hread;
           apply Hread; cbn; lia);
      destruct H as [(Hl & -> & ->) | (Hq & t' & H & ->)].
    - now split.
    - congruence.
    - specialize (Hms m (or_introl eq_refl)). unfold quiet in Hms. congruence.
    - apply IH in H.
      + destruct H as (-> & ->). now split.
      + intros m' Hm'. apply Hms. now right.
      + intros i Hi. rewrite Nat.add_succ_comm. apply Hread. cbn. lia. }
  destruct (Hdrain _ 0%nat _ _ _ _ Hbefore Hsays H2) as (-> & Hresult).
  split; [exact Htrace|]. split; [|exact Hresult].
  rewrite Htrace, app_assoc, logged_app.
  rewrite logged_elsewhere.
  - cbn [app]. clear. induction before as [|m ms IH]; cbn [app flat_map].
    + reflexivity.
    + rewrite !logged_cons. cbn [app]. f_equal. exact IH.
  - apply Forall_app. split.
    + eapply Forall_impl; [|exact Hpreparing].
      intros c Hc. rewrite (preparing_phase _ _ _ Hc). discriminate.
    + apply training_working in Htraining. eapply Forall_impl; [|exact Htraining].
      intros c Hc. destruct (working_phase _ _ _ _ Hc) as [-> | ->]; discriminate.
Qed.

Lemma logger_failure_drops_messages_witness :
  logged (trace failing_logger (config defaults noon) sacred_log)
  = ["epoch 0"; "epoch 1"] /\
  result failing_logger (config defaults noon) sacred_log
  = Raise (Raised (log_info sacred_log "epoch 1")).
Proof.
  pose proof (logger_failure_drops_messages failing_logger (config defaults noon)
                sacred_log) as H.
  specialize (H _ _ _ _ _ ["epoch 0"] "epoch 1" ["epoch 2"] eq_refl eq_refl eq_refl).
  destruct H as (_ & Hlogged & Hresult).
  - intros i _. reflexivity.
  - reflexivity.
  - reflexivity.
  - intros m [<- | []]. reflexivity.
  - reflexivity.
  - split; [exact Hlogged | exact Hresult].
Defined.

(** ** The compiler check of the build script *)

Lemma lower_app (x y : string) :
  Setup.lower (x ++ y) = Setup.lower x ++ Setup.lower y.
Proof. induction x as [|c x IH]; cbn; [reflexivity | now rewrite IH]. Qed.

Lemma lower_spaces (n : nat) : Setup.lower (spaces n) = spaces n.
Proof. induction n as [|n IH]; cbn; [reflexivity | now rewrite IH]. Qed.

Lemma repr_body_app (q : ascii) (x y : string) :
  Setup.repr_body q (x ++ y) = Setup.repr_body q x ++ Setup.repr_body q y.
Proof.
  induction x as [|c x IH]; [reflexivity|].
  cbn [append Setup.repr_body]. rewrite IH.
  repeat match goal with
         | |- context [if ?b then _ else _] => destruct b
         end; reflexivity.
Qed.

(** The delimiter [str] puts around the bytes is one of the two quotes. *)
Lemma quote_cases (b : string) :
  exists q, (q = "'"%char \/ q = ascii_of_nat 34) /\
    Setup.str_bytes b
    = String "b" (String q (Setup.repr_body q b ++ String q EmptyString)).
Proof.
  unfold Setup.str_bytes.
  destruct (Setup.has_byte "'" b && negb (Setup.has_byte (ascii_of_nat 34) b));
    eexists; (split; [|reflexivity]); tauto.
Qed.

Lemma repr_body_spaces (q : ascii) (n : nat) :
  q = "'"%char \/ q = ascii_of_nat 34 ->
  Setup.repr_body q (spaces n) = spaces n.
Proof.
  intros Hq. induction n as [|n IH]; [reflexivity|].
  cbn [spaces Setup.repr_body]. rewrite IH.
  destruct Hq as [-> | ->]; reflexivity.
Qed.

Lemma skip_spaces_spaces (n : nat) (s : string) :
  Setup.skip_spaces (spaces n ++ "llvm" ++ s) = "llvm" ++ s.
Proof. induction n as [|n IH]; [reflexivity | exact IH]. Qed.

Lemma match_apple_llvm_here (n : nat) (s : string) :
  Setup.match_apple_llvm ("apple" ++ spaces n ++ "llvm" ++ s) = true.
Proof.
  unfold Setup.match_apple_llvm.
  rewrite prefix_append.
  change (drop 5 ("apple" ++ spaces n ++ "llvm" ++ s))
    with (spaces n ++ "llvm" ++ s).
  rewrite skip_spaces_spaces. apply (prefix_append "llvm").
Qed.

Lemma search_here (s : string) :
  Setup.match_apple_llvm s = true -> Setup.search_apple_llvm s = true.
Proof. intros H. destruct s; cbn [Setup.search_apple_llvm]; now rewrite H. Qed.

Lemma search_skip (c : ascii) (s : string) :
  Setup.search_apple_llvm s = true ->
  Setup.search_apple_llvm (String c s) = true.
Proof.
  intros H. cbn [Setup.search_apple_llvm]. rewrite H. apply orb_true_r.
Qed.

Lemma search_app (pre s : string) :
  Setup.search_apple_llvm s = true ->
  Setup.search_apple_llvm (pre ++ s) = true.
Proof.
  intros H. induction pre as [|c pre IH]; [exact H|].
  cbn [append]. now apply search_skip.
Qed.

(** A printed form that holds "apple", spaces and "llvm" in a row is a
    match. *)
Lemma search_printed (q : ascii) (left : string) (n : nat) (right : string) :
  Setup.search_apple_llvm
    (String "b" (String q ((left ++ "apple" ++ spaces n ++ "llvm" ++ right)
                           ++ String q EmptyString)))
  = true.
Proof.
  do 2 apply search_skip.
  rewrite !append_assoc. apply search_app.
  apply search_here.
  change ("llvm" ++ right ++ String q EmptyString)
    with ("llvm" ++ (right ++ String q EmptyString)).
  apply match_apple_llvm_here.
Qed.

(** X9.  The check for Apple's compiler ignores letter case and the number of
    spaces: a version banner that holds the word apple, any number of
    spaces and the word llvm in a row, in any mix of upper and lower
    case, adds -stdlib=libc++ to the compile arguments. *)
Theorem apple_llvm_detected (pre apple_word llvm_word post : string) (n : nat) :
  Setup.lower apple_word = "apple" ->
  Setup.lower llvm_word = "llvm" ->
  Setup.compile_args (pre ++ apple_word ++ spaces n ++ llvm_word ++ post)
  = ["-std=c++11"; "-stdlib=libc++"].
Proof.
  intros Happle Hllvm. unfold Setup.compile_args.
  rewrite !lower_app, Happle, Hllvm, lower_spaces.
  destruct (quote_cases (Setup.lower pre ++ "apple" ++ spaces n ++ "llvm"
                         ++ Setup.lower post)) as (q & Hq & ->).
  rewrite !repr_body_app, (repr_body_spaces q n Hq).
  assert (Hwords : Setup.repr_body q "apple" = "apple" /\
                   Setup.repr_body q "llvm" = "llvm")
    by (destruct Hq as [-> | ->]; split; reflexivity).
  destruct Hwords as (-> & ->).
  now rewrite search_printed.
Qed.

Lemma apple_llvm_detected_witness :
  Setup.compile_args "Apple  LLVM version 10.0.1 (clang-1001.0.46.4)"
  = ["-std=c++11"; "-stdlib=libc++"].
Proof.
  apply (apple_llvm_detected EmptyString "Apple" "LLVM"
           " version 10.0.1 (clang-1001.0.46.4)" 2); reflexivity.
Defined.

(** X10.  The check is made on the printed form of the banner, where a control
    byte is written as a backslash, x and two hexadecimal digits: after
    the byte 0x1a, whose printed form ends in the letter a, the letters
    "pple llvm" complete a match, so -stdlib=libc++ is added although the
    banner need not hold the word apple. *)
Theorem escaped_byte_completes_match (pre post : string) :
  Setup.compile_args (pre ++ String (ascii_of_nat 26) ("pple llvm" ++ post))
  = ["-std=c++11"; "-stdlib=libc++"].
Proof.
  unfold Setup.compile_args.
  rewrite lower_app.
  change (Setup.lower (String (ascii_of_nat 26) ("pple llvm" ++ post)))
    with (String (ascii_of_nat 26) ("pple llvm" ++ Setup.lower post)).
  destruct (quote_cases (Setup.lower pre
                         ++ String (ascii_of_nat 26) ("pple llvm" ++ Setup.lower post)))
    as (q & Hq & ->).
  rewrite repr_body_app.
  assert (Hprinted :
            Setup.repr_body q (String (ascii_of_nat 26)
                                      ("pple llvm" ++ Setup.lower post))
            = String "\" (String "x" (String "1" EmptyString))
              ++ "apple" ++ spaces 1 ++ "llvm"
              ++ Setup.repr_body q (Setup.lower post))
    by (destruct Hq as [-> | ->]; reflexivity).
  rewrite Hprinted, <- append_assoc.
  now rewrite search_printed.
Qed.

(** ** The compiler the build script asks *)

Lemma first_field_spec (s : string) :
  Setup.has_byte " " (first_field s) = false /\
  exists rest,
    s = first_field s ++ rest /\
    (rest = EmptyString \/ exists rest', rest = String " " rest').
Proof.
  induction s as [|c s (Hno & rest & Hs & Hrest)]; cbn [first_field].
  - split; [reflexivity|]. exists EmptyString. split; [reflexivity | now left].
  - destruct (Ascii.eqb_spec c " ") as [-> | Hc].
    + split; [reflexivity|]. exists (String " " s).
      split; [reflexivity | right; now eexists].
    + split.
      * cbn [Setup.has_byte]. rewrite Hno.
        apply Ascii.eqb_neq in Hc. now rewrite Hc.
      * exists rest. split; [cbn [append]; now rewrite <- Hs | exact Hrest].
Qed.

(** X11.  The script asks one program for its version: the [CC] setting up to
    its first space, "gcc" when [CC] is not set, and the empty name when
    the setting is empty or starts with a space.  When that call raises,
    the script ends there with its exception, and [setup] is not called. *)
Theorem compiler_is_first_word (env : Setup.build_env) :
  let cc := match Setup.config_CC env with Some cc => cc | None => "gcc" end in
  let argv := [first_field cc; "--version"] in
  Setup.has_byte " " (first_field cc) = false /\
  (exists rest,
      cc = first_field cc ++ rest /\
      (rest = EmptyString \/ exists rest', rest = String " " rest')) /\
  (Setup.config_CC env = None -> argv = ["gcc"; "--version"]) /\
  (Setup.check_output env argv = None ->
   Setup.script env = Raise (Setup.CalledProcessError argv) /\
   forall call, Setup.script env <> Ret call).
Proof.
  cbv zeta.
  destruct (first_field_spec
              (match Setup.config_CC env with Some cc => cc | None => "gcc" end))
    as (Hno & Hrest).
  split; [exact Hno|]. split; [exact Hrest|]. split.
  - intros ->. reflexivity.
  - intros Hnone. unfold Setup.script. rewrite Hnone. split; [reflexivity|].
    intros call. discriminate.
Qed.

Lemma compiler_is_first_word_witness :
  Setup.script bare
  = Raise (Setup.CalledProcessError ["/opt/llvm/bin/clang++"; "--version"]).
Proof.
  destruct (compiler_is_first_word bare) as (_ & _ & _ & Hfails).
  destruct Hfails as (Hraise & _); [reflexivity | exact Hraise].
Defined.

(** ** Time stamps *)

Lemma in_range (n z : Z) : 0 <= z < n -> In z (range n).
Proof.
  intros Hz. unfold range. apply in_map_iff. exists (Z.to_nat z).
  split; [lia|]. apply in_seq. lia.
Qed.

(** Below 100 a field padded to two digits has two characters and reads
    back as the number. *)
Lemma two_digits (z : Z) :
  0 <= z < 100 ->
  String.length (zfill 2 (str_int z)) = 2%nat /\
  decimal_value (zfill 2 (str_int z)) = z.
Proof.
  intros Hz.
  assert (Hall : forallb (fun z => Nat.eqb (String.length (zfill 2 (str_int z))) 2
                                   && (decimal_value (zfill 2 (str_int z)) =? z))
                         (range 100) = true) by (vm_compute; reflexivity).
  rewrite forallb_forall in Hall. specialize (Hall z (in_range _ _ Hz)).
  apply andb_true_iff in Hall. destruct Hall as (Hlen & Hval).
  split; [now apply Nat.eqb_eq | now apply Z.eqb_eq].
Qed.

(** Below 10000 a field padded to four digits has four characters and
    reads back as the number. *)
Lemma four_digits (z : Z) :
  0 <= z < 10000 ->
  String.length (zfill 4 (str_int z)) = 4%nat /\
  decimal_value (zfill 4 (str_int z)) = z.
Proof.
  intros Hz.
  assert (Hall : forallb (fun z => Nat.eqb (String.length (zfill 4 (str_int z))) 4
                                   && (decimal_value (zfill 4 (str_int z)) =? z))
                         (range 10000) = true) by (vm_compute; reflexivity).
  rewrite forallb_forall in Hall. specialize (Hall z (in_range _ _ Hz)).
  apply andb_true_iff in Hall. destruct Hall as (Hlen & Hval).
  split; [now apply Nat.eqb_eq | now apply Z.eqb_eq].
Qed.

Lemma append_cancel_l (a x y : string) : a ++ x = a ++ y -> x = y.
Proof.
  induction a as [|c a IH]; cbn [append]; [trivial|].
  intros [= H]. now apply IH.
Qed.

Lemma append_split (a a' x x' : string) :
  String.length a = String.length a' ->
  a ++ x = a' ++ x' -> a = a' /\ x = x'.
Proof.
  revert a'. induction a as [|c a IH]; intros [|c' a'] Hlen Heq;
    cbn [String.length] in Hlen; try discriminate Hlen.
  - now split.
  - cbn [append] in Heq. injection Heq as -> Heq.
    destruct (IH a' (eq_add_S _ _ Hlen) Heq) as (-> & ->). now split.
Qed.

(** The time stamp of a valid clock splits back into its six fields. *)
Lemma stamp_fields (c1 c2 : datetime) :
  valid_clock c1 -> valid_clock c2 ->
  strftime c1 "-%m:%d:%Y-%H:%M:%S" = strftime c2 "-%m:%d:%Y-%H:%M:%S" ->
  c1 = c2.
Proof.
  intros (Hy1 & Hm1 & Hd1 & Hh1 & Hmi1 & Hs1) (Hy2 & Hm2 & Hd2 & Hh2 & Hmi2 & Hs2).
  rewrite !strftime_stamp. intros Heq.
  assert (Htwo : forall a b x y,
             0 <= a < 100 -> 0 <= b < 100 ->
             zfill 2 (str_int a) ++ x = zfill 2 (str_int b) ++ y ->
             a = b /\ x = y).
  { intros a b x y Ha Hb H.
    destruct (two_digits a Ha) as (Hla & Hva), (two_digits b Hb) as (Hlb & Hvb).
    destruct (append_split _ _ _ _ (eq_trans Hla (eq_sym Hlb)) H) as (Hab & ->).
    split; [|reflexivity]. rewrite <- Hva, <- Hvb. now rewrite Hab. }
  assert (Hfour : forall a b x y,
             0 <= a < 10000 -> 0 <= b < 10000 ->
             zfill 4 (str_int a) ++ x = zfill 4 (str_int b) ++ y ->
             a = b /\ x = y).
  { intros a b x y Ha Hb H.
    destruct (four_digits a Ha) as (Hla & Hva), (four_digits b Hb) as (Hlb & Hvb).
    destruct (append_split _ _ _ _ (eq_trans Hla (eq_sym Hlb)) H) as (Hab & ->).
    split; [|reflexivity]. rewrite <- Hva, <- Hvb. now rewrite Hab. }
  apply (append_cancel_l "-") in Heq.
  apply Htwo in Heq; [|lia|lia]. destruct Heq as (Hmonth & Heq).
  apply (append_cancel_l ":") in Heq.
  apply Htwo in Heq; [|lia|lia]. destruct Heq as (Hday & Heq).
  apply (append_cancel_l ":") in Heq.
  apply Hfour in Heq; [|lia|lia]. destruct Heq as (Hyear & Heq).
  apply (append_cancel_l "-") in Heq.
  apply Htwo in Heq; [|lia|lia]. destruct Heq as (Hhour & Heq).
  apply (append_cancel_l ":") in Heq.
  apply Htwo in Heq; [|lia|lia]. destruct Heq as (Hminute & Heq).
  apply (append_cancel_l ":") in Heq.
  rewrite <- (append_nil_r (zfill 2 (str_int (second c1)))) in Heq.
  rewrite <- (append_nil_r (zfill 2 (str_int (second c2)))) in Heq.
  apply Htwo in Heq; [|lia|lia]. destruct Heq as (Hsecond & _).
  destruct c1, c2. cbn in *. now subst.
Qed.

(** X12.  Two runs of the same hyperparameters get the same [tensorboard_dir]
    only if they start in the same second: for clocks from the year 1000
    on, the directory name determines the date and time of the run. *)
Theorem tensorboard_dir_determines_clock (h : hyperparameters)
    (c1 c2 : datetime) :
  valid_clock c1 -> valid_clock c2 ->
  tensorboard_dir (config h c1) = tensorboard_dir (config h c2) ->
  c1 = c2.
Proof.
  intros Hc1 Hc2. unfold config. cbn [tensorboard_dir].
  intros Heq. apply append_cancel_l in Heq. now apply stamp_fields.
Qed.

Lemma tensorboard_dir_determines_clock_witness :
  tensorboard_dir (config defaults noon) = tensorboard_dir (config defaults noon) /\
  tensorboard_dir (config defaults noon) <> tensorboard_dir (config defaults later).
Proof.
  split; [reflexivity|]. intros Heq.
  assert (Hvalid : forall c, c = noon \/ c = later -> valid_clock c)
    by (intros c [-> | ->]; unfold valid_clock; cbn; lia).
  pose proof (tensorboard_dir_determines_clock defaults noon later
                (Hvalid _ (or_introl eq_refl)) (Hvalid _ (or_intror eq_refl)) Heq)
    as Hsame.
  discriminate Hsame.
Defined.

(** ** What a returning run forgave *)

Section Lenient.

Variable env : environment.

Lemma lenient_invoke {A : Type} (c : call) (a : A) : lenient env (invoke env c a).
Proof.
  intros s t s' r b H Hr. apply invoke_inv in H.
  destruct H as (-> & _ & [(Hq & _) | (_ & ->)]); [|discriminate Hr].
  repeat constructor. intros Hl. congruence.
Qed.

Lemma lenient_silent {A : Type} (m : M A) :
  (forall s, fst (fst (m s)) = []) -> lenient env m.
Proof.
  intros Hm s t s' r b H _. specialize (Hm s). rewrite H in Hm. cbn in Hm.
  subst t. constructor.
Qed.

Lemma lenient_bind {A B : Type} (m : M A) (f : A -> M B) :
  lenient env m -> (forall a, lenient env (f a)) -> lenient env (bind m f).
Proof.
  intros Hm Hf s t s' r b H Hr. apply bind_inv in H.
  destruct H as [(t1 & s1 & a & t2 & H1 & H2 & ->) | (e & H1 & ->)];
    [|discriminate Hr].
  apply Forall_app. split; [exact (Hm _ _ _ _ a H1 eq_refl) | exact (Hf a _ _ _ _ b H2 Hr)].
Qed.

Lemma lenient_for_each {A : Type} (xs : list A) (body : A -> M unit) :
  (forall x, lenient env (body x)) -> lenient env (for_each xs body).
Proof.
  intros Hbody. induction xs as [|x xs IH]; cbn [for_each].
  - now apply lenient_silent.
  - apply lenient_bind; [apply Hbody | intros _; exact IH].
Qed.

Lemma lenient_try_finally {A : Type} (body : M A) (cleanup : M unit) :
  lenient env body -> lenient env cleanup ->
  lenient env (try_finally body cleanup).
Proof.
  intros Hb Hc s t s' r a H Hr. apply try_finally_inv in H.
  destruct H as (t1 & s1 & r1 & t2 & r2 & H1 & H2 & -> & ->).
  destruct r2 as [u|e]; [|discriminate Hr].
  apply Forall_app. split; [exact (Hb _ _ _ _ a H1 Hr) | exact (Hc _ _ _ _ u H2 eq_refl)].
Qed.

(** One round of lines 139-143 returns when [close] returned or
    [terminate] did. *)
Lemma lenient_closing (p : Process) :
  lenient env (try_except (perform env (close p)) (perform env (terminate p))).
Proof.
  intros s t s' r a H Hr. unfold try_except, perform, invoke in H.
  destruct (raises env (close p)) eqn:Hclose;
    [destruct (raises env (terminate p)) eqn:Hterminate|];
    injection H as <- <- <-; try discriminate Hr;
    repeat constructor; intros Hl; try congruence.
  now exists p.
Qed.

End Lenient.

Lemma embed_lenient (env : environment) (cfg : configuration) (_log : run_logger) :
  lenient env (embed env cfg _log).
Proof.
  assert (Hget : lenient env get_threads) by now apply lenient_silent.
  unfold embed. apply lenient_bind; [|intros l; apply lenient_bind; [|intros _]].
  - unfold prepare, perform.
    do 6 (apply lenient_bind; [apply lenient_invoke | intros ?]).
    apply lenient_bind.
    { apply lenient_silent. intros s. unfold captured_get_embed_manifold.
      now destruct (get_embed_manifold (recursion_limit env) cfg None) as [m|[]]. }
    intros manifold.
    apply lenient_bind; [apply lenient_invoke | intros ?].
    apply lenient_bind.
    { destruct (train_threads cfg >? 1).
      - apply lenient_bind; [apply lenient_invoke | intros ?; apply lenient_invoke].
      - now apply lenient_silent. }
    intros ?. apply lenient_bind; [apply lenient_invoke | intros ?].
    apply lenient_bind;
      [destruct (double_precision cfg); apply lenient_invoke | intros ?].
    apply lenient_bind; [apply lenient_invoke | intros ?].
    apply lenient_bind.
    { unfold with_no_grad, perform.
      apply lenient_bind; [apply lenient_invoke | intros ?].
      apply lenient_try_finally; [|apply lenient_invoke].
      destruct manifold as [m|]; [apply lenient_invoke | now apply lenient_silent]. }
    intros ?. apply lenient_bind; [apply lenient_invoke | intros ?].
    apply lenient_bind; [apply lenient_invoke | intros ?].
    now apply lenient_silent.
  - unfold training. apply lenient_bind; [now apply lenient_silent | intros _].
    destruct (train_threads cfg >? 1).
    + apply lenient_try_finally.
      * apply lenient_bind.
        -- apply lenient_for_each. intros i. cbv zeta.
           apply lenient_bind; [apply lenient_invoke | intros p].
           apply lenient_bind; [now apply lenient_silent | intros _].
           apply lenient_bind.
           { apply lenient_silent. intros s. unfold threads_last.
             now destruct (rev (threads s)). }
           intros last. apply lenient_invoke.
        -- intros _. apply lenient_bind; [exact Hget | intros ths].
           apply lenient_for_each. intros p. apply lenient_invoke.
      * apply lenient_bind; [exact Hget | intros ths].
        apply lenient_bind.
        -- apply lenient_for_each. intros p. apply lenient_closing.
        -- intros _. apply lenient_invoke.
    + apply lenient_try_finally; apply lenient_invoke.
  - generalize 0%nat.
    induction (queued env) as [|msg msgs IH]; intros read;
      cbn [drain empty_answer]; unfold perform.
    + apply lenient_bind; [apply lenient_invoke | intros empty].
      destruct empty; now apply lenient_silent.
    + apply lenient_bind; [apply lenient_invoke | intros empty].
      destruct empty; [now apply lenient_silent|].
      apply lenient_bind; [apply lenient_invoke | intros ?].
      apply lenient_bind; [apply lenient_invoke | intros ?]. apply IH.
Qed.

(** X14.  A run that returns met no failure but, possibly, that of closing a
    process: every other call it made returned.  The exception of a
    [close] is the only one [embed] swallows. *)
Theorem returning_run_forgave_close_only (env : environment)
    (cfg : configuration) (_log : run_logger) (c : call) :
  result env cfg _log = Ret tt ->
  In c (trace env cfg _log) ->
  raises env c = true ->
  exists p, c = close p.
Proof.
  unfold result, trace, run.
  destruct (embed env cfg _log _) as [[t s'] r] eqn:H. cbn [fst snd].
  intros -> Hin Hl.
  pose proof (embed_lenient env cfg _log _ _ _ _ tt H eq_refl) as Hforgiven.
  rewrite Forall_forall in Hforgiven. exact (Hforgiven c Hin Hl).
Qed.

Lemma returning_run_forgave_close_only_witness :
  result no_close (config defaults noon) sacred_log = Ret tt /\
  exists c p, In c (trace no_close (config defaults noon) sacred_log) /\
              raises no_close c = true /\ c = close p.
Proof.
  split; [vm_compute; reflexivity|].
  set (t := trace no_close (config defaults noon) sacred_log).
  assert (Hin : In (nth 32 t no_grad_enter) t)
    by (apply nth_In; vm_compute; lia).
  assert (Hl : raises no_close (nth 32 t no_grad_enter) = true)
    by (vm_compute; reflexivity).
  assert (Hr : result no_close (config defaults noon) sacred_log = Ret tt)
    by (vm_compute; reflexivity).
  destruct (returning_run_forgave_close_only no_close (config defaults noon)
              sacred_log _ Hr Hin Hl) as (p & Hp).
  now exists (nth 32 t no_grad_enter), p.
Defined.
